(** * openai-enhanced-sdk: the context buffer, the error classifier and the
      streaming decoder of [src/openai-client.ts]

    The development embeds the parts of [OpenAIClient] that carry logic of
    their own: [addToContext], [addBatchToContext], [getContext],
    [clearContext], the payload construction of [createChatCompletion],
    [handleError] and the async generator [streamAsyncIterable].

    JavaScript strings are sequences of UTF-16 code units, buffers are
    sequences of bytes, and the values that travel through the client
    (request entries, response bodies, parsed stream items) are JavaScript
    values of the JSON shapes plus [undefined]. *)

From Stdlib Require Import List Bool Arith NArith ZArith Lia.
From Stdlib Require Import Strings.String Strings.Ascii Strings.Byte.
Import ListNotations.

Set Warnings "-register-all".

(** ** JavaScript strings *)

Module JSString.

Local Open Scope N_scope.

(** A code unit is a number below 65536; a string is a list of code units. *)
Definition char16 := N.
Definition jsstring := list char16.

(** An ASCII literal of the source, as a JavaScript string. *)
Definition txt (s : string) : jsstring :=
  map N_of_ascii (list_ascii_of_string s).

(** Wire text written on one line: in the literal an apostrophe stands for
    the double quote (code 34) and a vertical bar for the line feed (code
    10); every other character stands for itself. *)
Definition wire_unit (c : char16) : char16 :=
  if N.eqb c 39 then 34 else if N.eqb c 124 then 10 else c.

Definition wtxt (s : string) : jsstring := map wire_unit (txt s).

Fixpoint eqb (a b : jsstring) : bool :=
  match a, b with
  | [], [] => true
  | x :: a', y :: b' => N.eqb x y && eqb a' b'
  | _, _ => false
  end.

(** [String.prototype.startsWith(p)]. *)
Fixpoint startsWith (p s : jsstring) : bool :=
  match p, s with
  | [], _ => true
  | x :: p', y :: s' => N.eqb x y && startsWith p' s'
  | _ :: _, [] => false
  end.

(** [String.prototype.replace(pat, rep)] with a string pattern: the first
    occurrence of [pat], searched from the left, is replaced; a string
    without an occurrence is returned as it is.  (The client's replacement
    text is empty, so the [$] patterns of the replacement play no part.) *)
Fixpoint replace (pat rep s : jsstring) : jsstring :=
  if startsWith pat s then rep ++ skipn (List.length pat) s
  else match s with
       | [] => []
       | c :: s' => c :: replace pat rep s'
       end.

(** ECMAScript [WhiteSpace] and [LineTerminator] code points, the ones that
    [trim] removes. *)
Definition isWhiteSpace (c : char16) : bool :=
  (N.leb 9 c && N.leb c 13) || N.eqb c 32 || N.eqb c 160 || N.eqb c 5760
  || (N.leb 8192 c && N.leb c 8202) || N.eqb c 8232 || N.eqb c 8233
  || N.eqb c 8239 || N.eqb c 8287 || N.eqb c 12288 || N.eqb c 65279.

Fixpoint trimStart (s : jsstring) : jsstring :=
  match s with
  | [] => []
  | c :: s' => if isWhiteSpace c then trimStart s' else s
  end.

(** [trimEnd], written as a right fold: a white-space unit is dropped when
    everything after it has been dropped. *)
Fixpoint trimEnd (s : jsstring) : jsstring :=
  match s with
  | [] => []
  | c :: s' =>
      match trimEnd s' with
      | [] => if isWhiteSpace c then [] else [c]
      | t => c :: t
      end
  end.

Definition trim (s : jsstring) : jsstring := trimEnd (trimStart s).

(** [s.split('\n')]: the segments between line feeds; never empty, the
    empty string splits into one empty segment. *)
Fixpoint split_nl (s : jsstring) : list jsstring :=
  match s with
  | [] => [[]]
  | c :: s' =>
      if N.eqb c 10 then [] :: split_nl s'
      else match split_nl s' with
           | h :: t => (c :: h) :: t
           | [] => [[c]]
           end
  end.

End JSString.
Import JSString.

(** ** Buffers: [Buffer.prototype.toString()] *)

Module Utf8.

Local Open Scope N_scope.

(** The decoder state between two bytes of a multi-byte sequence: how many
    continuation bytes are still needed, the code point so far, and the
    range the next byte has to lie in. *)
Record pending := { needed : nat; acc : N; lower : N; upper : N }.

(** The UTF-16 code units of a code point. *)
Definition units (cp : N) : jsstring :=
  if N.ltb cp 65536 then [cp]
  else [N.add 55296 (N.shiftr (N.sub cp 65536) 10);
        N.add 56320 (N.land (N.sub cp 65536) 1023)].

Definition replacement : char16 := 65533.

(** A byte met with no sequence open. *)
Definition lead (b : N) : jsstring + pending :=
  if N.leb b 127 then inl [b]
  else if N.leb 194 b && N.leb b 223 then
    inr {| needed := 1%nat; acc := N.land b 31; lower := 128; upper := 191 |}
  else if N.leb 224 b && N.leb b 239 then
    inr {| needed := 2%nat; acc := N.land b 15;
           lower := if N.eqb b 224 then 160 else 128;
           upper := if N.eqb b 237 then 159 else 191 |}
  else if N.leb 240 b && N.leb b 244 then
    inr {| needed := 3%nat; acc := N.land b 7;
           lower := if N.eqb b 240 then 144 else 128;
           upper := if N.eqb b 244 then 143 else 191 |}
  else inl [replacement].

(** The decoder: an ill-formed or truncated sequence gives one U+FFFD and
    the offending byte is looked at again as a first byte. *)
Fixpoint decode (st : option pending) (bs : list N) : jsstring :=
  match bs with
  | [] => match st with None => [] | Some _ => [replacement] end
  | b :: bs' =>
      match st with
      | None =>
          match lead b with
          | inl out => out ++ decode None bs'
          | inr p => decode (Some p) bs'
          end
      | Some p =>
          if N.leb (lower p) b && N.leb b (upper p) then
            let cp := N.lor (N.shiftl (acc p) 6) (N.land b 63) in
            match needed p with
            | 0%nat | 1%nat => units cp ++ decode None bs'
            | S n => decode (Some {| needed := n; acc := cp;
                                     lower := 128; upper := 191 |}) bs'
            end
          else
            replacement ::
            match lead b with
            | inl out => out ++ decode None bs'
            | inr q => decode (Some q) bs'
            end
      end
  end.

(** [chunk.toString()] on a [Buffer]: UTF-8 by default, each buffer decoded
    on its own. *)
Definition toString (chunk : list byte) : jsstring :=
  decode None (map Byte.to_N chunk).

(** The bytes of an ASCII wire literal, with the conventions of [wtxt]. *)
Definition wire_byte (b : byte) : byte :=
  match b with
  | x27 => x22
  | x7c => x0a
  | _ => b
  end.

Definition wire (s : string) : list byte :=
  map wire_byte (list_byte_of_string s).

End Utf8.


(** ** JavaScript values *)

Module JS.

(** A number read from JSON text: sign, decimal mantissa and decimal
    exponent.  The double that JavaScript stores is a function of these
    three, so equal records denote equal numbers. *)
Record number := { negative : bool; mantissa : N; exponent : Z }.

Inductive value :=
| VUndefined
| VNull
| VBool (b : bool)
| VNumber (n : number)
| VString (s : jsstring)
| VArray (items : list value)
| VObject (props : list (jsstring * value)).

(** Own properties of an object, in creation order.  Defining a property
    that exists replaces its value where it stands. *)
Fixpoint set_prop (props : list (jsstring * value)) (k : jsstring) (v : value)
  : list (jsstring * value) :=
  match props with
  | [] => [(k, v)]
  | (k', v') :: ps =>
      if JSString.eqb k k' then (k', v) :: ps else (k', v') :: set_prop ps k v
  end.

Fixpoint find_prop (props : list (jsstring * value)) (k : jsstring) : value :=
  match props with
  | [] => VUndefined
  | (k', v') :: ps => if JSString.eqb k k' then v' else find_prop ps k
  end.

(** [typeof v === 'object'] and [typeof v === 'string']. *)
Definition typeof_object (v : value) : bool :=
  match v with
  | VNull | VArray _ | VObject _ => true
  | _ => false
  end.

Definition typeof_string (v : value) : bool :=
  match v with
  | VString _ => true
  | _ => false
  end.

(** [Array.isArray(v)]. *)
Definition isArray (v : value) : bool :=
  match v with
  | VArray _ => true
  | _ => false
  end.

(** [names.includes(v)] for an array of strings: only a string equal to one
    of the names is included. *)
Definition includes (names : list jsstring) (v : value) : bool :=
  match v with
  | VString s => existsb (JSString.eqb s) names
  | _ => false
  end.

(** A number is zero as a double when its mantissa is zero or when it
    rounds to zero: at most half of the least subnormal, [2^-1075]. *)
Definition is_zero (n : number) : bool :=
  N.eqb (mantissa n) 0
  || (Z.ltb (exponent n) 0
      && Z.leb (Z.of_N (mantissa n) * 2 ^ 1075) (10 ^ (- exponent n)))%Z.

(** [ToBoolean]. *)
Definition truthy (v : value) : bool :=
  match v with
  | VUndefined | VNull => false
  | VBool b => b
  | VNumber n => negb (is_zero n)
  | VString s => match s with [] => false | _ => true end
  | VArray _ | VObject _ => true
  end.

(** [v?.k] for a key that no built-in prototype defines ([error],
    [message]): [undefined] on [null] and [undefined], the own property of
    an object, [undefined] on everything else. *)
Definition opt_get (v : value) (k : jsstring) : value :=
  match v with
  | VObject props => find_prop props k
  | _ => VUndefined
  end.

End JS.
Import JS.

(** ** [JSON.parse] *)

Module JSON.

Local Open Scope N_scope.

Inductive token :=
| TLBrace | TRBrace | TLBracket | TRBracket | TColon | TComma
| TString (s : jsstring)
| TNumber (n : number)
| TTrue | TFalse | TNull.

(** *** Tokens *)

Definition is_ws (c : char16) : bool :=
  N.eqb c 32 || N.eqb c 9 || N.eqb c 10 || N.eqb c 13.

Definition is_digit (c : char16) : bool := N.leb 48 c && N.leb c 57.

(** The units that numbers and the three literal names are made of. *)
Definition is_word (c : char16) : bool :=
  is_digit c || N.eqb c 43 || N.eqb c 45 || N.eqb c 46
  || (N.leb 97 c && N.leb c 122) || (N.leb 65 c && N.leb c 90).

Definition hexval (c : char16) : option N :=
  if is_digit c then Some (c - 48)
  else if N.leb 97 c && N.leb c 102 then Some (c - 87)
  else if N.leb 65 c && N.leb c 70 then Some (c - 55)
  else None.

(** A run of digits: the value accumulated on [acc], how many digits were
    read, and what follows. *)
Fixpoint digits (s : jsstring) (acc : N) (count : nat) : N * nat * jsstring :=
  match s with
  | c :: s' =>
      if is_digit c then digits s' (acc * 10 + (c - 48)) (S count)
      else (acc, count, s)
  | [] => (acc, count, [])
  end.

(** The exponent part, [e] or [E], an optional sign and at least one
    digit; what follows it must be the end of the number. *)
Definition exponent_part (s : jsstring) : option Z :=
  match s with
  | [] => Some 0%Z
  | c :: s' =>
      if N.eqb c 101 || N.eqb c 69 then
        let '(neg, s'') :=
          match s' with
          | d :: r => if N.eqb d 45 then (true, r)
                      else if N.eqb d 43 then (false, r) else (false, s')
          | [] => (false, s')
          end in
        match digits s'' 0 0 with
        | (_, O, _) => None
        | (e, _, []) => Some (if neg then (- Z.of_N e)%Z else Z.of_N e)
        | _ => None
        end
      else None
  end.

(** The fraction part, a point and at least one digit, carried on the
    mantissa [m]; then the exponent part. *)
Definition fraction_part (neg : bool) (m : N) (s : jsstring) : option number :=
  match s with
  | c :: s' =>
      if N.eqb c 46 then
        match digits s' m 0 with
        | (_, O, _) => None
        | (m', k, r) =>
            option_map (fun e => {| negative := neg; mantissa := m';
                                    exponent := (e - Z.of_nat k)%Z |})
                       (exponent_part r)
        end
      else
        option_map (fun e => {| negative := neg; mantissa := m; exponent := e |})
                   (exponent_part s)
  | [] => Some {| negative := neg; mantissa := m; exponent := 0%Z |}
  end.

(** The JSON number grammar: an optional minus, then [0] or a run of digits
    that does not start with [0], then fraction and exponent. *)
Definition number_of (w : jsstring) : option number :=
  let '(neg, s) :=
    match w with
    | c :: r => if N.eqb c 45 then (true, r) else (false, w)
    | [] => (false, w)
    end in
  match s with
  | c :: r =>
      if N.eqb c 48 then fraction_part neg 0 r
      else if is_digit c then
        let '(m, _, r') := digits s 0 0 in fraction_part neg m r'
      else None
  | [] => None
  end.

Definition classify (w : jsstring) : option token :=
  if JSString.eqb w (txt "true") then Some TTrue
  else if JSString.eqb w (txt "false") then Some TFalse
  else if JSString.eqb w (txt "null") then Some TNull
  else option_map TNumber (number_of w).

(** The scanner between two units; accumulated text is kept reversed. *)
Inductive lexstate :=
| LIdle
| LString (acc : jsstring)
| LEscape (acc : jsstring)
| LUnicode (acc : jsstring) (left : nat) (v : N)
| LWord (acc : jsstring).

Definition idle (c : char16) : option (lexstate * list token) :=
  if is_ws c then Some (LIdle, [])
  else if N.eqb c 123 then Some (LIdle, [TLBrace])
  else if N.eqb c 125 then Some (LIdle, [TRBrace])
  else if N.eqb c 91 then Some (LIdle, [TLBracket])
  else if N.eqb c 93 then Some (LIdle, [TRBracket])
  else if N.eqb c 58 then Some (LIdle, [TColon])
  else if N.eqb c 44 then Some (LIdle, [TComma])
  else if N.eqb c 34 then Some (LString [], [])
  else if is_word c then Some (LWord [c], [])
  else None.

Definition escape (c : char16) : option char16 :=
  if N.eqb c 34 || N.eqb c 92 || N.eqb c 47 then Some c
  else if N.eqb c 98 then Some 8
  else if N.eqb c 102 then Some 12
  else if N.eqb c 110 then Some 10
  else if N.eqb c 114 then Some 13
  else if N.eqb c 116 then Some 9
  else None.

Fixpoint lex (st : lexstate) (s : jsstring) : option (list token) :=
  match s with
  | [] =>
      match st with
      | LIdle => Some []
      | LWord w => option_map (fun t => [t]) (classify (rev w))
      | _ => None
      end
  | c :: s' =>
      match st with
      | LIdle =>
          match idle c with
          | Some (st', ts) => option_map (app ts) (lex st' s')
          | None => None
          end
      | LWord w =>
          if is_word c then lex (LWord (c :: w)) s'
          else match classify (rev w), idle c with
               | Some t, Some (st', ts) =>
                   option_map (fun r => t :: ts ++ r) (lex st' s')
               | _, _ => None
               end
      | LString a =>
          if N.eqb c 34 then option_map (cons (TString (rev a))) (lex LIdle s')
          else if N.eqb c 92 then lex (LEscape a) s'
          else if N.ltb c 32 then None
          else lex (LString (c :: a)) s'
      | LEscape a =>
          if N.eqb c 117 then lex (LUnicode a 4 0) s'
          else match escape c with
               | Some e => lex (LString (e :: a)) s'
               | None => None
               end
      | LUnicode a n v =>
          match hexval c with
          | None => None
          | Some h =>
              match n with
              | O | 1%nat => lex (LString ((v * 16 + h) :: a)) s'
              | S n' => lex (LUnicode a n' (v * 16 + h)) s'
              end
          end
      end
  end.

(** *** Values *)

(** A container that is still open: an array with the items read so far,
    or an object with its properties and the key whose value is awaited. *)
Inductive frame :=
| FArray (items : list value)
| FObject (props : list (jsstring * value)) (key : option jsstring).

(** What the grammar allows next. *)
Inductive expect :=
| EValue          (* a value *)
| EFirstItem      (* after '[': a value or ']' *)
| EFirstKey       (* after '{': a key or '}' *)
| EKey            (* after ',' in an object: a key *)
| EColon          (* after a key *)
| ENext           (* after a value in a container: ',' or the closer *)
| EEnd (v : value) (* the text's value is complete *).

(** A finished value goes to the innermost open container. *)
Definition deliver (stack : list frame) (v : value)
  : option (list frame * expect) :=
  match stack with
  | [] => Some ([], EEnd v)
  | FArray items :: st => Some (FArray (items ++ [v]) :: st, ENext)
  | FObject props (Some k) :: st =>
      Some (FObject (set_prop props k v) None :: st, ENext)
  | FObject _ None :: _ => None
  end.

Definition scalar (t : token) : option value :=
  match t with
  | TString s => Some (VString s)
  | TNumber n => Some (VNumber n)
  | TTrue => Some (VBool true)
  | TFalse => Some (VBool false)
  | TNull => Some VNull
  | _ => None
  end.

Definition begin_value (stack : list frame) (t : token)
  : option (list frame * expect) :=
  match t with
  | TLBracket => Some (FArray [] :: stack, EFirstItem)
  | TLBrace => Some (FObject [] None :: stack, EFirstKey)
  | _ => match scalar t with
         | Some v => deliver stack v
         | None => None
         end
  end.

Definition close_array (stack : list frame) : option (list frame * expect) :=
  match stack with
  | FArray items :: st => deliver st (VArray items)
  | _ => None
  end.

Definition close_object (stack : list frame) : option (list frame * expect) :=
  match stack with
  | FObject props None :: st => deliver st (VObject props)
  | _ => None
  end.

Definition take_key (stack : list frame) (t : token)
  : option (list frame * expect) :=
  match t, stack with
  | TString k, FObject props None :: st =>
      Some (FObject props (Some k) :: st, EColon)
  | _, _ => None
  end.

Definition step (stack : list frame) (e : expect) (t : token)
  : option (list frame * expect) :=
  match e with
  | EValue => begin_value stack t
  | EFirstItem =>
      match t with
      | TRBracket => close_array stack
      | _ => begin_value stack t
      end
  | EFirstKey =>
      match t with
      | TRBrace => close_object stack
      | _ => take_key stack t
      end
  | EKey => take_key stack t
  | EColon =>
      match t with
      | TColon => Some (stack, EValue)
      | _ => None
      end
  | ENext =>
      match t, stack with
      | TComma, FArray _ :: _ => Some (stack, EValue)
      | TComma, FObject _ None :: _ => Some (stack, EKey)
      | TRBracket, _ => close_array stack
      | TRBrace, _ => close_object stack
      | _, _ => None
      end
  | EEnd _ => None
  end.

Fixpoint values (stack : list frame) (e : expect) (ts : list token)
  : option value :=
  match ts with
  | [] => match e with
          | EEnd v => Some v
          | _ => None
          end
  | t :: ts' =>
      match step stack e t with
      | Some (stack', e') => values stack' e' ts'
      | None => None
      end
  end.

(** [JSON.parse(text)]: the value, or [None] where JavaScript throws a
    [SyntaxError]. *)
Definition parse (text : jsstring) : option value :=
  match lex LIdle text with
  | Some ts => values [] EValue ts
  | None => None
  end.

End JSON.

(** ** String conversion: [ToString] *)

Module Conversion.

Local Open Scope Z_scope.

(** A double that is not NaN, without its sign: zero, [M * 2^q] with
    [2^52 <= M < 2^53], or with [q = -1074] and [M < 2^52]; or infinity. *)
Inductive double :=
| Zero
| Finite (M q : Z)
| Infinite.

(** The quotient [n / d] rounded to the nearest integer, ties to even. *)
Definition round_half_even (n d : Z) : Z :=
  let k := n / d in
  let r := n mod d in
  if 2 * r <? d then k
  else if d <? 2 * r then k + 1
  else if Z.even k then k else k + 1.

(** The value [m * 10^e] and the value [M * 2^q] as fractions. *)
Definition decimal_fraction (m e : Z) : Z * Z :=
  if 0 <=? e then (m * 10 ^ e, 1) else (m, 10 ^ (- e)).

Definition binary_fraction (M q : Z) : Z * Z :=
  if 0 <=? q then (M * 2 ^ q, 1) else (M, 2 ^ (- q)).

(** [b ^ t <= n / d], for a power with any sign. *)
Definition power_le (b t n d : Z) : bool :=
  if 0 <=? t then b ^ t * d <=? n else d <=? n * b ^ (- t).

(** The integer part of the binary logarithm of [n / d]: the difference of
    the two logarithms or one less. *)
Definition floor_log2 (n d : Z) : Z :=
  let t := Z.log2 n - Z.log2 d in
  if power_le 2 t n d then t else t - 1.

(** The integer part of the decimal logarithm of [n / d], looked for around
    the estimate that the binary logarithm gives. *)
Definition floor_log10 (n d : Z) : Z :=
  let t := (floor_log2 n d * 30103) / 100000 in
  if power_le 10 (t + 2) n d then t + 2
  else if power_le 10 (t + 1) n d then t + 1
  else if power_le 10 t n d then t
  else t - 1.

(** The double nearest to [m * 10^e], ties to even: what a numeric literal
    of JSON denotes. *)
Definition to_double (m e : Z) : double :=
  if m <=? 0 then Zero
  else
    let '(n, d) := decimal_fraction m e in
    let q := Z.max (floor_log2 n d - 52) (-1074) in
    let M := if 0 <=? q then round_half_even n (d * 2 ^ q)
             else round_half_even (n * 2 ^ (- q)) d in
    let '(M, q) := if M =? 2 ^ 53 then (2 ^ 52, q + 1) else (M, q) in
    if M =? 0 then Zero
    else if 971 <? q then Infinite
    else Finite M q.

Definition same_double (a b : double) : bool :=
  match a, b with
  | Zero, Zero | Infinite, Infinite => true
  | Finite M q, Finite M' q' => (M =? M') && (q =? q')
  | _, _ => false
  end.

(** [| n / d - s * 10^u |], as a numerator over the denominator that two
    decimals with the same [u] share. *)
Definition distance (n d s u : Z) : Z :=
  let '(sn, sd) := decimal_fraction s u in
  Z.abs (n * sd - sn * d).

(** For [k] digits: the decimals [s * 10^u] with [u = n0 - k] next to the
    double on either side; the one that reads back as the double, the
    nearer of the two when both do (the even one on a tie). *)
Definition candidate (x : double) (n d n0 k : Z) : option (Z * Z) :=
  let u := n0 - k in
  let below := if 0 <=? u then n / (d * 10 ^ u) else (n * 10 ^ (- u)) / d in
  let above := below + 1 in
  let ok s := same_double (to_double s u) x in
  match ok below, ok above with
  | true, true =>
      let db := distance n d below u in
      let da := distance n d above u in
      if db <? da then Some (below, u)
      else if da <? db then Some (above, u)
      else if Z.even below then Some (below, u) else Some (above, u)
  | true, false => Some (below, u)
  | false, true => Some (above, u)
  | false, false => None
  end.

Fixpoint shortest (x : double) (n d n0 : Z) (k : Z) (tries : nat)
  : option (Z * Z) :=
  match tries with
  | O => None
  | S tries' =>
      match candidate x n d n0 k with
      | Some r => Some r
      | None => shortest x n d n0 (k + 1) tries'
      end
  end.

(** Trailing zeros go to the exponent. *)
Fixpoint strip_zeros (s u : Z) (fuel : nat) : Z * Z :=
  match fuel with
  | O => (s, u)
  | S fuel' =>
      if (s mod 10 =? 0) && (0 <? s) then strip_zeros (s / 10) (u + 1) fuel'
      else (s, u)
  end.

Fixpoint units_of_uint (d : Decimal.uint) : jsstring :=
  match d with
  | Decimal.Nil => []
  | Decimal.D0 d' => 48%N :: units_of_uint d'
  | Decimal.D1 d' => 49%N :: units_of_uint d'
  | Decimal.D2 d' => 50%N :: units_of_uint d'
  | Decimal.D3 d' => 51%N :: units_of_uint d'
  | Decimal.D4 d' => 52%N :: units_of_uint d'
  | Decimal.D5 d' => 53%N :: units_of_uint d'
  | Decimal.D6 d' => 54%N :: units_of_uint d'
  | Decimal.D7 d' => 55%N :: units_of_uint d'
  | Decimal.D8 d' => 56%N :: units_of_uint d'
  | Decimal.D9 d' => 57%N :: units_of_uint d'
  end.

(** The decimal digits of a natural number. *)
Definition digits_of (n : Z) : jsstring :=
  units_of_uint (N.to_uint (Z.to_N n)).

(** The text of a positive finite double from its shortest digits [ds]
    ([k] of them) and the position [n] of the decimal point, as
    [Number::toString] lays it out. *)
Definition layout (ds : jsstring) (n : Z) : jsstring :=
  let k := Z.of_nat (List.length ds) in
  if (k <=? n) && (n <=? 21) then
    ds ++ repeat 48%N (Z.to_nat (n - k))
  else if (0 <? n) && (n <=? 21) then
    firstn (Z.to_nat n) ds ++ [46%N] ++ skipn (Z.to_nat n) ds
  else if (-6 <? n) && (n <=? 0) then
    [48%N; 46%N] ++ repeat 48%N (Z.to_nat (- n)) ++ ds
  else
    let e := n - 1 in
    let sign := if e <? 0 then 45%N else 43%N in
    match ds with
    | [] => []
    | [c] => c :: 101%N :: sign :: digits_of (Z.abs e)
    | c :: rest => c :: 46%N :: rest ++ 101%N :: sign :: digits_of (Z.abs e)
    end.

(** [Number::toString] in radix 10 on the number a JSON literal denotes:
    the fewest digits that read back as the same double. *)
Definition Number_toString (x : number) : jsstring :=
  match to_double (Z.of_N (mantissa x)) (exponent x) with
  | Zero => [48%N]
  | Infinite =>
      (if negative x then [45%N] else []) ++ txt "Infinity"
  | Finite M q =>
      let '(n, d) := binary_fraction M q in
      let n0 := floor_log10 n d + 1 in
      (if negative x then [45%N] else [])
      ++ match shortest (Finite M q) n d n0 1 17 with
         | Some (s, u) =>
             let '(s', u') := strip_zeros s u 400 in
             let ds := digits_of s' in
             layout ds (u' + Z.of_nat (List.length ds))
         | None => []
         end
  end.

Definition has_own (props : list (jsstring * value)) (k : jsstring) : bool :=
  existsb (fun p => JSString.eqb k (fst p)) props.

(** [ToString(v)], [None] where it throws a [TypeError].  An array is
    joined with commas, [null] and [undefined] elements giving nothing.  An
    object without an own [toString] is [[object Object]]; with one (never
    callable in a value that came from JSON) neither [toString] nor
    [valueOf] gives a primitive, and the conversion throws. *)
Fixpoint ToString (v : value) : option jsstring :=
  match v with
  | VUndefined => Some (txt "undefined")
  | VNull => Some (txt "null")
  | VBool b => Some (if b then txt "true" else txt "false")
  | VNumber x => Some (Number_toString x)
  | VString s => Some s
  | VArray items =>
      (fix join (l : list value) (first : bool) : option jsstring :=
         match l with
         | [] => Some []
         | x :: l' =>
             match match x with
                   | VUndefined | VNull => Some []
                   | _ => ToString x
                   end, join l' false with
             | Some a, Some b =>
                 Some ((if first then [] else [44%N]) ++ a ++ b)
             | _, _ => None
             end
         end) items true
  | VObject props =>
      if has_own props (txt "toString") then None
      else Some (txt "[object Object]")
  end.

End Conversion.

(** ** Faults: [src/errors.ts] and the errors of the language *)

Module Errors.

(** The classes of [errors.ts]; each sets [name] to its own class name. *)
Inductive error_class :=
| OpenAIError
| AuthenticationError
| ValidationError
| RateLimitError
| APIError.

Definition name (c : error_class) : jsstring :=
  match c with
  | OpenAIError => txt "OpenAIError"
  | AuthenticationError => txt "AuthenticationError"
  | ValidationError => txt "ValidationError"
  | RateLimitError => txt "RateLimitError"
  | APIError => txt "APIError"
  end.

(** An instance: [message] is what [Error] stores for the argument of
    [super(message)], its string conversion (a [VString]); [statusCode]
    and [data] are the optional fields ([None] and [VUndefined] when the
    constructor got one argument). *)
Record instance := {
  class : error_class;
  message : value;
  statusCode : option Z;
  data : value
}.

(** What a [throw] carries. *)
Inductive fault :=
| Error_ (message : jsstring)       (* throw new Error(message) *)
| TypeError_                        (* of the language: a property read on
                                       null, a failed string conversion *)
| SyntaxError_ (text : jsstring)    (* JSON.parse(text) *)
| Thrown (e : instance)             (* throw new <class of errors.ts>(...) *).

End Errors.
Import Errors.

(** ** The transport's error object *)

Module Axios.

Record AxiosResponse := { status : Z; data : value }.

(** [response] is set when the server answered, [request] when a request
    was made; [message] is the transport's own text. *)
Record AxiosError := {
  response : option AxiosResponse;
  request : bool;
  message : jsstring
}.

End Axios.

(** ** The client *)

Module Client.

(** The client's mutable state: [private context: ContextEntry[] = []]. *)
Record OpenAIClient := { context : list value }.

Definition new_client : OpenAIClient := {| context := [] |}.

(** Methods run on the client, return or throw, and leave a client. *)
Inductive outcome (A : Type) :=
| Returned (a : A)
| Threw (f : fault).
Arguments Returned {A} a.
Arguments Threw {A} f.

Definition M (A : Type) := OpenAIClient -> outcome A * OpenAIClient.

Definition ret {A} (a : A) : M A := fun this => (Returned a, this).
Definition throw {A} (f : fault) : M A := fun this => (Threw f, this).
Definition bind {A B} (m : M A) (k : A -> M B) : M B :=
  fun this =>
    match m this with
    | (Returned a, this') => k a this'
    | (Threw f, this') => (Threw f, this')
    end.

Notation "x <- m ;; k" := (bind m (fun x => k))
  (at level 61, m at next level, right associativity).
Notation "m ;; k" := (bind m (fun _ => k))
  (at level 61, right associativity).

Definition read_context : M (list value) :=
  fun this => (Returned (context this), this).
Definition write_context (c : list value) : M unit :=
  fun _ => (Returned tt, {| context := c |}).

(** [v.k]: reading a property of [null] or [undefined] throws. *)
Definition prop (v : value) (k : jsstring) : M value :=
  match v with
  | VNull | VUndefined => throw TypeError_
  | _ => ret (opt_get v k)
  end.

(** [for (const x of xs) body(x)] on an array that the body does not
    write to: the elements are fixed when the loop starts.  For
    [addBatchToContext] this is every array but the buffer's own; the loop
    on an array of the store, the buffer's own included, is [Live.for_of],
    and the two agree on the other arrays ([live_batch_is_fixed_batch]). *)
Fixpoint for_of {A} (xs : list A) (body : A -> M unit) : M unit :=
  match xs with
  | [] => ret tt
  | x :: xs' => body x ;; for_of xs' body
  end.

Definition roles : list jsstring := [txt "system"; txt "user"; txt "assistant"].

Definition entry_message : jsstring :=
  wtxt "Context entry must be an object with role ('system', 'user', or 'assistant') and content properties".

Definition batch_message : jsstring :=
  txt "Input must be an array of context entries".

(** [this.context.push(contextEntry)]. *)
Definition push (contextEntry : value) : M unit :=
  c <- read_context ;; write_context (c ++ [contextEntry]).

(** [addToContext]: the three-part condition is evaluated left to right
    and stops at the first part that fails. *)
Definition addToContext (contextEntry : value) : M unit :=
  accepted <-
    (if typeof_object contextEntry then
       role <- prop contextEntry (txt "role") ;;
       if includes roles role then
         content <- prop contextEntry (txt "content") ;;
         ret (typeof_string content)
       else ret false
     else ret false) ;;
  if accepted : bool then push contextEntry
  else throw (Error_ entry_message).

(** [addBatchToContext] on an argument given by value: an array given by
    its elements is not the buffer's own array. *)
Definition addBatchToContext (contextEntries : value) : M unit :=
  match contextEntries with
  | VArray entries => for_of entries addToContext
  | _ => throw (Error_ batch_message)
  end.

Definition getContext : M (list value) := read_context.

Definition clearContext : M unit := write_context [].

(** The chat options: the two fields the method reads and the remaining
    ones, which the spread copies as they are. *)
Record CreateChatCompletionOptions := {
  messages : list value;
  stream : bool;
  others : list (jsstring * value)
}.

(** What the method hands to the transport. *)
Record Post := {
  url : jsstring;
  payload : CreateChatCompletionOptions;
  responseType_stream : bool
}.

(** [createChatCompletion], up to the call of the transport: both branches
    post the same payload to the same path, the streaming one asks for a
    stream. *)
Definition createChatCompletion (options : CreateChatCompletionOptions)
  : M Post :=
  context <- read_context ;;
  let messages := context ++ messages options in
  let payload := {| messages := messages;
                    stream := stream options;
                    others := others options |} in
  ret {| url := txt "/chat/completions";
         payload := payload;
         responseType_stream := stream options |}.

(** [handleError] never returns: its result is the fault it throws.  The
    constructors of [errors.ts] hand [message] to [Error], which converts
    it to a string; where that conversion throws, its [TypeError] is what
    leaves [handleError]. *)
Definition handleError (error : Axios.AxiosError) : fault :=
  match Axios.response error with
  | Some r =>
      let status := Axios.status r in
      let data := Axios.data r in
      let vendor := opt_get (opt_get data (txt "error")) (txt "message") in
      let message :=
        if truthy vendor then vendor else VString (Axios.message error) in
      let new c :=
        match Conversion.ToString message with
        | Some text => Thrown {| class := c; message := VString text;
                                 statusCode := Some status; data := data |}
        | None => TypeError_
        end in
      if Z.eqb status 400 then new ValidationError
      else if Z.eqb status 401 then new AuthenticationError
      else if Z.eqb status 429 then new RateLimitError
      else new APIError
  | None =>
      let plain prefix :=
        Thrown {| class := OpenAIError;
                  message := VString (prefix ++ Axios.message error);
                  statusCode := None; data := VUndefined |} in
      if Axios.request error then plain (txt "Network error: ")
      else plain (txt "Error: ")
  end.

End Client.

(** ** The streaming decoder: [streamAsyncIterable] *)

Module Stream.

(** What one [next()] of the async iterator settles to. *)
Inductive pull :=
| Yield (v : value)      (* { value: v, done: false } *)
| Done                   (* { value: undefined, done: true } *)
| Raise (f : fault)      (* rejection *).

(** A suspended generator: the local [buffer], the lines of the current
    chunk that the inner loop has not visited, the chunks the source has
    not delivered, and whether the body has completed. *)
Record generator := {
  buffer : jsstring;
  lines : list jsstring;
  source : list (list byte);
  completed : bool
}.

Definition start (stream : list (list byte)) : generator :=
  {| buffer := []; lines := []; source := stream; completed := false |}.

(** [trimmed.replace('data: ', '').trim()]. *)
Definition content (trimmed : jsstring) : jsstring :=
  trim (replace (txt "data: ") [] trimmed).

(** The inner loop, run to its next exit. *)
Inductive exit :=
| Item (parsed : value) (rest : list jsstring)   (* yield parsed *)
| Sentinel                                       (* return *)
| Invalid (content : jsstring)                   (* JSON.parse throws *)
| Consumed                                       (* the lines are used up *).

Fixpoint scan (lines : list jsstring) : exit :=
  match lines with
  | [] => Consumed
  | line :: rest =>
      let trimmed := trim line in
      if startsWith (txt "data:") trimmed then
        let content := content trimmed in
        if JSString.eqb content (txt "[DONE]") then Sentinel
        else match JSON.parse content with
             | Some parsed => Item parsed rest
             | None => Invalid content
             end
      else scan rest
  end.

(** The body from the inner loop on: when the lines are used up the outer
    loop takes the next chunk, [buffer += chunk.toString()],
    [lines = buffer.split('\n')], [buffer = lines.pop() || '']. *)
Fixpoint resume (source : list (list byte)) (buffer : jsstring)
         (lines : list jsstring) : pull * generator :=
  let stop := {| buffer := buffer; lines := []; source := source;
                 completed := true |} in
  match scan lines with
  | Item parsed rest =>
      (Yield parsed, {| buffer := buffer; lines := rest; source := source;
                        completed := false |})
  | Sentinel => (Done, stop)
  | Invalid text => (Raise (SyntaxError_ text), stop)
  | Consumed =>
      match source with
      | [] => (Done, stop)
      | chunk :: source' =>
          let data := Utf8.toString chunk in
          let buffer := buffer ++ data in
          let lines := split_nl buffer in
          resume source' (last lines []) (removelast lines)
      end
  end.

(** [next()]: a completed generator stays completed. *)
Definition next (g : generator) : pull * generator :=
  if completed g then (Done, g)
  else resume (source g) (buffer g) (lines g).

(** The first [n] pulls. *)
Fixpoint pulls (n : nat) (g : generator) : list pull :=
  match n with
  | O => []
  | S n' => let '(p, g') := next g in p :: pulls n' g'
  end.

Definition streamAsyncIterable (stream : list (list byte)) : generator :=
  start stream.

End Stream.

(** ** Notions used in the statements *)

Module Notions.

Import Client Stream.

(** The entries that [addToContext] is meant to accept: an object whose
    [role] is one of the three names and whose [content] is a string. *)
Definition valid_entry (e : value) : bool :=
  match e with
  | VObject props =>
      includes roles (find_prop props (txt "role"))
      && typeof_string (find_prop props (txt "content"))
  | _ => false
  end.

(** The object [{ role, content }] with two strings. *)
Definition entry (role content : string) : value :=
  VObject [(txt "role", VString (txt role));
           (txt "content", VString (txt content))].

(** A line the decoder looks at: after trimming it starts with [data:]. *)
Definition data_line (line : jsstring) : bool :=
  startsWith (txt "data:") (trim line).

(** The payload of a data line, as it is compared with the sentinel and
    handed to [JSON.parse]. *)
Definition payload (line : jsstring) : jsstring := content (trim line).

(** A text without a line feed. *)
Definition no_newline (s : jsstring) : Prop := split_nl s = [s].

(** Everything a generator still has to look at, as lines: the lines of
    the current chunk, then the complete lines of the buffer followed by
    the text of the chunks to come.  What follows the last line feed is
    never looked at. *)
Definition all_lines (g : generator) : list jsstring :=
  lines g
  ++ removelast
       (split_nl (buffer g ++ List.concat (map Utf8.toString (source g)))).

(** What a sequence of lines makes the consumer see, up to the end of the
    sequence: items, possibly closed by a rejection. *)
Fixpoint events (lines : list jsstring) : list pull :=
  match lines with
  | [] => []
  | line :: rest =>
      if data_line line then
        if JSString.eqb (payload line) (txt "[DONE]") then []
        else match JSON.parse (payload line) with
             | Some parsed => Yield parsed :: events rest
             | None => [Raise (SyntaxError_ (payload line))]
             end
      else events rest
  end.

(** The complete lines of the text that the chunks decode to, each chunk
    decoded on its own: what a fresh decoder has to look at. *)
Definition stream_lines (chunks : list (list byte)) : list jsstring :=
  removelast (split_nl (List.concat (map Utf8.toString chunks))).

(** The items of a run of lines none of which ends the sequence: every
    data line among them parses and is not the sentinel. *)
Fixpoint items_of (lines : list jsstring) : option (list value) :=
  match lines with
  | [] => Some []
  | line :: rest =>
      if data_line line then
        if JSString.eqb (payload line) (txt "[DONE]") then None
        else match JSON.parse (payload line) with
             | Some parsed => option_map (cons parsed) (items_of rest)
             | None => None
             end
      else items_of rest
  end.

(** An object with one property whose value is a natural number, as
    [{ a: 1 }]. *)
Definition one_field (k : string) (n : N) : value :=
  VObject [(txt k, VNumber {| negative := false; mantissa := n;
                              exponent := 0 |})].

(** The number 42, as the literal [42] denotes it. *)
Definition forty_two : value :=
  VNumber {| negative := false; mantissa := 42; exponent := 0 |}.

(** The vendor body's [error.message]. *)
Definition vendor_message (body : value) : value :=
  opt_get (opt_get body (txt "error")) (txt "message").

(** What the constructor of the fault is given as message: the vendor's
    when it is truthy, the transport's otherwise. *)
Definition handed_message (error : Axios.AxiosError) (r : Axios.AxiosResponse)
  : value :=
  if truthy (vendor_message (Axios.data r)) then vendor_message (Axios.data r)
  else VString (Axios.message error).



(** The decoder state that a run of bytes leaves behind. *)
Fixpoint state_after (st : option Utf8.pending) (bs : list N)
  : option Utf8.pending :=
  match bs with
  | [] => st
  | b :: bs' =>
      match st with
      | None =>
          match Utf8.lead b with
          | inl _ => state_after None bs'
          | inr p => state_after (Some p) bs'
          end
      | Some p =>
          if N.leb (Utf8.lower p) b && N.leb b (Utf8.upper p) then
            match Utf8.needed p with
            | 0 | 1 => state_after None bs'
            | S n =>
                state_after
                  (Some {| Utf8.needed := n;
                           Utf8.acc := N.lor (N.shiftl (Utf8.acc p) 6)
                                             (N.land b 63);
                           Utf8.lower := 128%N; Utf8.upper := 191%N |}) bs'
            end
          else
            match Utf8.lead b with
            | inl _ => state_after None bs'
            | inr q => state_after (Some q) bs'
            end
      end
  end.

(** A chunk that does not end inside a multi-byte sequence. *)
Definition whole (chunk : list byte) : bool :=
  match state_after None (map Byte.to_N chunk) with
  | None => true
  | Some _ => false
  end.

Definition ascii (b : byte) : bool := N.leb (Byte.to_N b) 127%N.

End Notions.
Import Notions.

(** ** Own properties in enumeration order *)

Module Objects.

Local Open Scope N_scope.

(** An array index: the canonical decimal text of an integer up to
    [2^32 - 2]. *)
Definition array_index (k : jsstring) : option N :=
  match k with
  | [] => None
  | c :: r =>
      if JSON.is_digit c
         && (negb (N.eqb c 48) || match r with [] => true | _ => false end)
      then match JSON.digits k 0 0 with
           | (n, _, []) => if N.ltb n 4294967295 then Some n else None
           | _ => None
           end
      else None
  end.

Fixpoint insert_index (n : N) (p : jsstring * value)
         (l : list (N * (jsstring * value))) : list (N * (jsstring * value)) :=
  match l with
  | [] => [(n, p)]
  | (m, q) :: l' =>
      if N.ltb n m then (n, p) :: l else (m, q) :: insert_index n p l'
  end.

Fixpoint index_entries (props : list (jsstring * value))
  : list (N * (jsstring * value)) :=
  match props with
  | [] => []
  | (k, v) :: ps =>
      match array_index k with
      | Some n => insert_index n (k, v) (index_entries ps)
      | None => index_entries ps
      end
  end.

Definition named (p : jsstring * value) : bool :=
  match array_index (fst p) with
  | Some _ => false
  | None => true
  end.

(** The order of [for (key in o)] and of the spread [{...o}] on a plain
    object: array indices ascending, then the other keys as created. *)
Definition own_entries (props : list (jsstring * value))
  : list (jsstring * value) :=
  map snd (index_entries props) ++ filter named props.

End Objects.

(** ** The methods that call the transport *)

Module Endpoints.

Import Client.

(** What goes to [this.client.request] / [this.client.post]. *)
Inductive body :=
| NoBody                                              (* data = null *)
| JsonBody (data : value)
| ChatBody (payload : CreateChatCompletionOptions).

Inductive response_type := AsJson | AsStream | AsArrayBuffer.

Record Call := {
  method : jsstring;
  url : jsstring;
  data : body;
  responseType : response_type
}.

(** How an [async] method settles: with a value, with a fault thrown by the
    client's own code, or with the transport's error passed on as it is. *)
Inductive settled (A : Type) :=
| Fulfilled (a : A)
| Rejected (f : fault)
| RejectedRaw (e : Axios.AxiosError).
Arguments Fulfilled {A} a.
Arguments Rejected {A} f.
Arguments RejectedRaw {A} e.

Definition async (A : Type) := OpenAIClient -> settled A * OpenAIClient.

(** What a completion method resolves to. *)
Inductive completion :=
| Response (data : value)
| Chunks (iterable : Stream.generator).

Section Transport.

(** The transport, one answer per call and response type: the body parsed
    as JSON, the body as a stream of buffers, the body as bytes; or the
    error it rejects with.  (The logger calls of [request] are left out.) *)
Variable send : Call -> value + Axios.AxiosError.
Variable send_stream : Call -> list (list byte) + Axios.AxiosError.
Variable send_buffer : Call -> list byte + Axios.AxiosError.

(** [request]: the response's data, or what [handleError] throws. *)
Definition request (method endpoint : jsstring) (data : body) : async value :=
  fun this =>
    match send {| method := method; url := endpoint; data := data;
                  responseType := AsJson |} with
    | inl response_data => (Fulfilled response_data, this)
    | inr error => (Rejected (handleError error), this)
    end.

Definition listModels : async value :=
  request (txt "GET") (txt "/models") NoBody.

Definition retrieveModel (modelId : jsstring) : async value :=
  request (txt "GET") (txt "/models/" ++ modelId) NoBody.

(** [createCompletion]: the streaming branch posts a copy of the options
    and does not go through [request]. *)
Definition createCompletion (options : list (jsstring * value))
  : async completion :=
  fun this =>
    if truthy (find_prop options (txt "stream")) then
      let payload := VObject (Objects.own_entries options) in
      match send_stream {| method := txt "POST"; url := txt "/completions";
                           data := JsonBody payload;
                           responseType := AsStream |} with
      | inl stream => (Fulfilled (Chunks (Stream.streamAsyncIterable stream)), this)
      | inr error => (RejectedRaw error, this)
      end
    else
      match request (txt "POST") (txt "/completions")
                    (JsonBody (VObject options)) this with
      | (Fulfilled response_data, this') => (Fulfilled (Response response_data), this')
      | (Rejected f, this') => (Rejected f, this')
      | (RejectedRaw e, this') => (RejectedRaw e, this')
      end.

(** [createChatCompletion] with its transport call. *)
Definition createChatCompletion (options : CreateChatCompletionOptions)
  : async completion :=
  fun this =>
    let messages := context this ++ messages options in
    let payload := {| messages := messages; stream := stream options;
                      others := others options |} in
    if stream options then
      match send_stream {| method := txt "POST"; url := txt "/chat/completions";
                           data := ChatBody payload;
                           responseType := AsStream |} with
      | inl stream => (Fulfilled (Chunks (Stream.streamAsyncIterable stream)), this)
      | inr error => (RejectedRaw error, this)
      end
    else
      match request (txt "POST") (txt "/chat/completions")
                    (ChatBody payload) this with
      | (Fulfilled response_data, this') => (Fulfilled (Response response_data), this')
      | (Rejected f, this') => (Rejected f, this')
      | (RejectedRaw e, this') => (RejectedRaw e, this')
      end.

Definition createEmbedding (options : value) : async value :=
  request (txt "POST") (txt "/embeddings") (JsonBody options).

Definition createModeration (options : value) : async value :=
  request (txt "POST") (txt "/moderations") (JsonBody options).

Definition createEdit (options : value) : async value :=
  request (txt "POST") (txt "/edits") (JsonBody options).

Definition createImage (options : value) : async value :=
  request (txt "POST") (txt "/images/generations") (JsonBody options).

Definition listFiles : async value :=
  request (txt "GET") (txt "/files") NoBody.

Definition deleteFile (fileId : jsstring) : async value :=
  request (txt "DELETE") (txt "/files/" ++ fileId) NoBody.

Definition retrieveFile (fileId : jsstring) : async value :=
  request (txt "GET") (txt "/files/" ++ fileId) NoBody.

(** [retrieveFileContent]: its own call, with the bytes as result, and
    [handleError] on failure. *)
Definition retrieveFileContent (fileId : jsstring) : async (list byte) :=
  fun this =>
    match send_buffer {| method := txt "GET";
                         url := txt "/files/" ++ fileId ++ txt "/content";
                         data := NoBody;
                         responseType := AsArrayBuffer |} with
    | inl response_data => (Fulfilled response_data, this)
    | inr error => (Rejected (handleError error), this)
    end.

Definition createFineTune (options : value) : async value :=
  request (txt "POST") (txt "/fine-tunes") (JsonBody options).

Definition listFineTunes : async value :=
  request (txt "GET") (txt "/fine-tunes") NoBody.

Definition retrieveFineTune (fineTuneId : jsstring) : async value :=
  request (txt "GET") (txt "/fine-tunes/" ++ fineTuneId) NoBody.

Definition cancelFineTune (fineTuneId : jsstring) : async value :=
  request (txt "POST") (txt "/fine-tunes/" ++ fineTuneId ++ txt "/cancel") NoBody.

Definition listFineTuneEvents (fineTuneId : jsstring) : async value :=
  request (txt "GET") (txt "/fine-tunes/" ++ fineTuneId ++ txt "/events") NoBody.

Definition deleteFineTunedModel (modelId : jsstring) : async value :=
  request (txt "DELETE") (txt "/models/" ++ modelId) NoBody.

End Transport.

End Endpoints.

(** ** The constructor's transport configuration *)

Module Config.

(** The options the constructor reads for the transport; an absent field
    is [VUndefined], an absent object [None]. *)
Record OpenAIClientOptions := {
  baseURL : value;
  timeout : value;
  proxy : value;
  proxyConfig : value;
  axiosConfig : option (list (jsstring * value))
}.

(** [a || b]. *)
Definition or_else (a b : value) : value := if truthy a then a else b.

Definition has_prop (props : list (jsstring * value)) (k : jsstring) : bool :=
  existsb (JSString.eqb k) (map fst props).

(** [{ ...target-literal, ...source }]: every enumerated key of the source
    is defined on the target with the value read from the source. *)
Definition spread_into (target source : list (jsstring * value))
  : list (jsstring * value) :=
  fold_left (fun acc entry =>
               set_prop acc (fst entry) (find_prop source (fst entry)))
            (Objects.own_entries source) target.

Definition zero : value :=
  VNumber {| negative := false; mantissa := 0; exponent := 0 |}.

(** [this.baseURL]. *)
Definition client_baseURL (options : OpenAIClientOptions) : value :=
  or_else (baseURL options) (VString (txt "https://api.openai.com/v1")).

Definition default_headers (apiKey : jsstring) : value :=
  VObject [(txt "Authorization", VString (txt "Bearer " ++ apiKey));
           (txt "Content-Type", VString (txt "application/json"))].

(** The [axiosConfig] handed to [axios.create]: the literal with the
    caller's [axiosConfig] spread last, then the two assignments made when
    [proxyConfig] is set. *)
Definition constructor_axiosConfig (apiKey : jsstring)
           (options : OpenAIClientOptions) : list (jsstring * value) :=
  let literal :=
    [(txt "baseURL", client_baseURL options);
     (txt "headers", default_headers apiKey);
     (txt "timeout", or_else (timeout options) zero);
     (txt "proxy", or_else (proxy options) (VBool false))] in
  let axiosConfig :=
    match axiosConfig options with
    | Some custom => spread_into literal custom
    | None => literal
    end in
  if truthy (proxyConfig options) then
    set_prop (set_prop axiosConfig (txt "proxy") (VBool false))
             (txt "httpsAgent") (proxyConfig options)
  else axiosConfig.

End Config.

(** ** The buffer as an array that is shared by reference *)

Module Shared.

(** Arrays live in a store and are named by references: [getContext]
    returns the client's array itself, [push] changes an array where it is,
    and [this.context = []] makes the client point to a new array. *)
Definition ref := nat.
Definition store := list (list value).

(** The client: which array its [context] field points to. *)
Record OpenAIClient := { context : ref }.

Definition state := (store * OpenAIClient)%type.

Definition deref (h : store) (r : ref) : list value := nth r h [].

Fixpoint update (h : store) (r : ref) (a : list value) : store :=
  match h, r with
  | [], _ => []
  | _ :: t, O => a :: t
  | x :: t, S r' => x :: update t r' a
  end.

(** [new OpenAIClient(...)]: [context = []] is a fresh array. *)
Definition new_client (h : store) : state :=
  (h ++ [[]], {| context := List.length h |}).

(** A method of the value-level client, run on the array the client points
    to; what it leaves is written back to the same array. *)
Definition in_place {A} (m : Client.M A) (s : state) : Client.outcome A * state :=
  let '(h, this) := s in
  let '(o, after) := m {| Client.context := deref h (context this) |} in
  (o, (update h (context this) (Client.context after), this)).

Definition addToContext (contextEntry : value) : state -> Client.outcome unit * state :=
  in_place (Client.addToContext contextEntry).

(** [return this.context]: the reference, not a copy. *)
Definition getContext (s : state) : ref * state := (context (snd s), s).

(** [this.context = []]: the old array is left as it is. *)
Definition clearContext (s : state) : state :=
  (fst s ++ [[]], {| context := List.length (fst s) |}).

(** [[...this.context, ...options.messages]] builds a new array; the
    payload holds it by value. *)
Definition createChatCompletion (options : Client.CreateChatCompletionOptions)
  : state -> Client.outcome Client.Post * state :=
  in_place (Client.createChatCompletion options).

(** What a caller can do with a reference it was given: [r.push(x)]. *)
Definition caller_push (r : ref) (x : value) (s : state) : state :=
  (update (fst s) r (deref (fst s) r ++ [x]), snd s).

End Shared.

(** ** [addBatchToContext] on arrays of the store *)

Module Live.

Import Shared.

(** What a caller passes: a value of its own (an array given by its
    elements is a new array that nothing else holds), or an array of the
    store, such as the one [getContext] returned. *)
Inductive argument :=
| Given (v : value)
| Held (r : ref).

(** [for (const x of array) body(x)] on the array [r] of the store, from
    [index] on.  The array iterator reads the array at every step: what
    the body appends to this very array is visited too.  The loop need not
    end; [fuel] bounds the number of steps and [None] is a loop that has
    not ended within it. *)
Fixpoint for_of (fuel : nat) (r : ref) (index : nat)
         (body : value -> state -> Client.outcome unit * state) (s : state)
  : option (Client.outcome unit * state) :=
  match fuel with
  | O => None
  | S fuel' =>
      match nth_error (deref (fst s) r) index with
      | None => Some (Client.Returned tt, s)
      | Some x =>
          match body x s with
          | (Client.Returned _, s') => for_of fuel' r (S index) body s'
          | (Client.Threw f, s') => Some (Client.Threw f, s')
          end
      end
  end.

(** [addBatchToContext]: an array literal is put in the store first. *)
Definition addBatchToContext (fuel : nat) (contextEntries : argument)
           (s : state) : option (Client.outcome unit * state) :=
  match contextEntries with
  | Held r => for_of fuel r 0 addToContext s
  | Given (VArray entries) =>
      for_of fuel (List.length (fst s)) 0 addToContext
             (fst s ++ [entries], snd s)
  | Given _ => Some (Client.Threw (Error_ Client.batch_message), s)
  end.

(** The buffer of a client: the array it points to. *)
Definition buffer (s : state) : list value := deref (fst s) (context (snd s)).

(** The elements of an array argument when the call is made. *)
Definition elements (contextEntries : argument) (s : state)
  : option (list value) :=
  match contextEntries with
  | Given (VArray entries) => Some entries
  | Given _ => None
  | Held r => Some (deref (fst s) r)
  end.

(** Whether the argument is the buffer's own array. *)
Definition is_buffer (contextEntries : argument) (s : state) : bool :=
  match contextEntries with
  | Held r => Nat.eqb r (context (snd s))
  | Given _ => false
  end.

End Live.

(** ** Further notions used in the statements *)

Module Views.

Import Client.

(** The entries at the head of a batch that are valid. *)
Fixpoint leading_valid (entries : list value) : list value :=
  match entries with
  | [] => []
  | e :: rest => if valid_entry e then e :: leading_valid rest else []
  end.

(** The operations on the buffer that a caller has. *)
Inductive operation :=
| Add (contextEntry : value)
| AddBatch (contextEntries : value)
| Clear
| Chat (options : CreateChatCompletionOptions).

Definition perform (op : operation) (this : OpenAIClient) : OpenAIClient :=
  match op with
  | Add e => snd (addToContext e this)
  | AddBatch es => snd (addBatchToContext es this)
  | Clear => snd (clearContext this)
  | Chat options => snd (createChatCompletion options this)
  end.

Definition perform_all (ops : list operation) (this : OpenAIClient)
  : OpenAIClient :=
  fold_left (fun c op => perform op c) ops this.

(** Whether the message that [handleError] hands to the constructor has a
    string conversion. *)
Definition message_converts (error : Axios.AxiosError) : bool :=
  match Axios.response error with
  | Some r =>
      match Conversion.ToString (handed_message error r) with
      | Some _ => true
      | None => false
      end
  | None => true
  end.

(** What [addToContext] throws on an entry that is not valid. *)
Definition rejection (e : value) : fault :=
  match e with
  | VNull => TypeError_
  | _ => Error_ Client.entry_message
  end.

(** How a batch on the elements [entries] ends when the loop ends: with the
    rejection of the first entry that is not valid, or normally. *)
Fixpoint batch_outcome (entries : list value) : Client.outcome unit :=
  match entries with
  | [] => Client.Returned tt
  | e :: rest =>
      if valid_entry e then batch_outcome rest else Client.Threw (rejection e)
  end.

Definition is_object (v : value) : bool :=
  match v with
  | VObject _ => true
  | _ => false
  end.

Definition not_line_feed (c : char16) : bool := negb (N.eqb c 10).

End Views.
Import Views.

(** * Properties *)

(** ** The embedding on small inputs *)

Example toString_ascii :
  Utf8.toString (Utf8.wire "data: [DONE]|") = wtxt "data: [DONE]|".
Proof. reflexivity. Qed.

Example toString_two_bytes : Utf8.toString [xc3; xa9] = [233%N].
Proof. reflexivity. Qed.

Example toString_three_bytes : Utf8.toString [xe2; x82; xac] = [8364%N].
Proof. reflexivity. Qed.

Example toString_surrogate_pair :
  Utf8.toString [xf0; x9f; x98; x80] = [55357%N; 56832%N].
Proof. reflexivity. Qed.

Example toString_truncated : Utf8.toString [x41; xc3] = [65%N; 65533%N].
Proof. reflexivity. Qed.

Example toString_stray : Utf8.toString [xa9; x41] = [65533%N; 65%N].
Proof. reflexivity. Qed.

Example split_keeps_last_fragment :
  split_nl (wtxt "a|b|") = [txt "a"; txt "b"; []]
  /\ split_nl (wtxt "a|b") = [txt "a"; txt "b"]
  /\ split_nl [] = [[]].
Proof. repeat split. Qed.

Example trim_both_ends : trim (wtxt "  data: x |") = txt "data: x".
Proof. reflexivity. Qed.

Example replace_first_only :
  replace (txt "data: ") [] (txt "data: data: x") = txt "data: x"
  /\ replace (txt "data: ") [] (txt "data:x data: y") = txt "data:x y".
Proof. split; reflexivity. Qed.

Example parse_object : JSON.parse (wtxt "{'a':1}") = Some (one_field "a" 1).
Proof. reflexivity. Qed.

Example parse_array :
  JSON.parse (wtxt "[true, null, -2.50e3, 'x\u0041\n', [], {}]")
  = Some (VArray [VBool true; VNull;
                  VNumber {| negative := true; mantissa := 250; exponent := 1 |};
                  VString [120%N; 65%N; 10%N]; VArray []; VObject []]).
Proof. reflexivity. Qed.

Example parse_duplicate_key :
  JSON.parse (wtxt "{'k':1,'j':2,'k':3}")
  = Some (VObject [(txt "k", VNumber {| negative := false; mantissa := 3;
                                        exponent := 0 |});
                   (txt "j", VNumber {| negative := false; mantissa := 2;
                                        exponent := 0 |})]).
Proof. reflexivity. Qed.

Example parse_rejects :
  map JSON.parse
      [txt "not-json"; txt "data:foo"; txt "[DONE]"; txt ""; txt "01";
       txt "1."; txt "[1,]"; txt "{,}"; txt "1 2"; txt "tru"; txt "[1";
       wtxt "{'a' 1}"; wtxt "'a"; txt ".5"; txt "+1"; txt "1e";
       wtxt "{'a':1,}"; txt "]"; wtxt "'\x'"; wtxt "{a:1}"]
  = repeat None 20.
Proof. reflexivity. Qed.

Example number_texts :
  map (fun '(m, e) =>
         Conversion.Number_toString
           {| negative := false; mantissa := m; exponent := e |})
      [(42%N, 0%Z); (1%N, (-1)%Z); (1%N, 21%Z); (1%N, 20%Z); (1%N, (-7)%Z);
       (1%N, (-6)%Z); (9007199254740993%N, 0%Z); (5%N, (-324)%Z);
       (1%N, (-400)%Z); (1%N, 400%Z); (30000000000000004%N, (-17)%Z);
       (150%N, (-2)%Z); (17976931348623157%N, 292%Z)]
  = [txt "42"; txt "0.1"; txt "1e+21"; txt "100000000000000000000";
     txt "1e-7"; txt "0.000001"; txt "9007199254740992"; txt "5e-324";
     txt "0"; txt "Infinity"; txt "0.30000000000000004"; txt "1.5";
     txt "1.7976931348623157e+308"].
Proof. vm_compute. reflexivity. Qed.

Example string_conversions :
  map Conversion.ToString
      [VString (txt "Unauthorized"); forty_two; VBool true;
       VArray [forty_two; VNull; VString (txt "a"); VArray [VBool false]];
       VArray []; VObject [(txt "code", forty_two)];
       VObject [(txt "toString", VNull)];
       VArray [VObject [(txt "toString", VString (txt "x"))]]]
  = [Some (txt "Unauthorized"); Some (txt "42"); Some (txt "true");
     Some (txt "42,,a,false"); Some []; Some (txt "[object Object]");
     None; None].
Proof. vm_compute. reflexivity. Qed.

Example truthy_values :
  map truthy [VUndefined; VNull; VBool false; VString [];
              VNumber {| negative := true; mantissa := 0; exponent := 0 |};
              VString (txt "0"); VArray []; VObject [];
              VNumber {| negative := false; mantissa := 1; exponent := -3 |}]
  = [false; false; false; false; false; true; true; true; true].
Proof. reflexivity. Qed.

(** ** Strings *)

Lemma jsstring_eqb_spec (a b : jsstring) : JSString.eqb a b = true <-> a = b.
Proof.
  revert b; induction a as [|x a IH]; intros [|y b]; simpl;
    try (split; discriminate); try tauto.
  rewrite andb_true_iff, N.eqb_eq, IH.
  split; [intros [-> ->]; reflexivity | intros E; inversion E; auto].
Qed.

Lemma split_nl_nonempty (s : jsstring) : split_nl s <> [].
Proof.
  destruct s as [|c s]; simpl; [discriminate|].
  destruct (N.eqb c 10%N); [discriminate|].
  destruct (split_nl s); discriminate.
Qed.

(** Splitting a concatenation: the complete lines of the first part stay,
    and its last fragment is continued by the second part. *)
Lemma split_nl_app (a b : jsstring) :
  split_nl (a ++ b)
  = removelast (split_nl a) ++ split_nl (last (split_nl a) [] ++ b).
Proof.
  induction a as [|c a IH]; [reflexivity|].
  cbn [app split_nl].
  destruct (N.eqb c 10%N) eqn:Ec.
  - rewrite IH.
    pose proof (split_nl_nonempty a) as Hne.
    destruct (split_nl a) as [|h t]; [contradiction|]. reflexivity.
  - rewrite IH.
    pose proof (split_nl_nonempty a) as Hne.
    destruct (split_nl a) as [|h t]; [contradiction|].
    destruct t as [|x t].
    + cbn [removelast last app split_nl]. rewrite Ec. reflexivity.
    + reflexivity.
Qed.

Lemma lines_app (a b : jsstring) :
  removelast (split_nl (a ++ b))
  = removelast (split_nl a)
    ++ removelast (split_nl (last (split_nl a) [] ++ b)).
Proof.
  rewrite split_nl_app.
  apply removelast_app, split_nl_nonempty.
Qed.

Lemma last_app_nonempty (A : Type) (l l' : list A) (d : A) :
  l' <> [] -> last (l ++ l') d = last l' d.
Proof.
  intros Hne. induction l as [|x l IH]; [reflexivity|].
  cbn [app last]. destruct (l ++ l') eqn:E; [|exact IH].
  apply app_eq_nil in E. destruct E; contradiction.
Qed.

Lemma fragment_app (a b : jsstring) :
  last (split_nl (a ++ b)) []
  = last (split_nl (last (split_nl a) [] ++ b)) [].
Proof.
  rewrite split_nl_app.
  apply last_app_nonempty, split_nl_nonempty.
Qed.

(** The fragment held back has no line feed in it. *)
Lemma fragment_no_newline (s : jsstring) : no_newline (last (split_nl s) []).
Proof.
  unfold no_newline.
  induction s as [|c s IH]; [reflexivity|].
  cbn [split_nl].
  pose proof (split_nl_nonempty s) as Hne.
  destruct (N.eqb c 10%N) eqn:Ec.
  - destruct (split_nl s) as [|h t]; [contradiction|]. exact IH.
  - destruct (split_nl s) as [|h t]; [contradiction|].
    destruct t as [|x t].
    + cbn [last] in *. cbn [split_nl]. rewrite Ec, IH. reflexivity.
    + exact IH.
Qed.

Lemma no_newline_lines (s : jsstring) :
  no_newline s -> removelast (split_nl s) = [] /\ last (split_nl s) [] = s.
Proof. unfold no_newline; intros ->; split; reflexivity. Qed.

(** ** The generator and the lines it reads *)

Section Generator.

Import Stream.

Lemma scan_app (l1 l2 : list jsstring) :
  scan (l1 ++ l2)
  = match scan l1 with
    | Consumed => scan l2
    | Item parsed rest => Item parsed (rest ++ l2)
    | e => e
    end.
Proof.
  induction l1 as [|line l1 IH]; cbn [app scan].
  - destruct (scan l2); reflexivity.
  - destruct (startsWith (txt "data:") (trim line)); [|exact IH].
    destruct (JSString.eqb (content (trim line)) (txt "[DONE]")); [reflexivity|].
    destruct (JSON.parse (content (trim line))); reflexivity.
Qed.

Lemma events_scan (l : list jsstring) :
  events l
  = match scan l with
    | Item parsed rest => Yield parsed :: events rest
    | Invalid text => [Raise (SyntaxError_ text)]
    | Sentinel | Consumed => []
    end.
Proof.
  induction l as [|line l IH]; cbn [events scan]; [reflexivity|].
  unfold data_line, payload.
  destruct (startsWith (txt "data:") (trim line)); [|exact IH].
  destruct (JSString.eqb (content (trim line)) (txt "[DONE]")); [reflexivity|].
  destruct (JSON.parse (content (trim line))); reflexivity.
Qed.

(** One run of the body, read off the lines that are still to come. *)
Lemma resume_scan (source : list (list byte)) :
  forall buffer lines,
    no_newline buffer ->
    let g := {| buffer := buffer; lines := lines; source := source;
                completed := false |} in
    exists g',
      resume source buffer lines
      = (match scan (all_lines g) with
         | Item parsed _ => Yield parsed
         | Invalid text => Raise (SyntaxError_ text)
         | Sentinel | Consumed => Done
         end, g')
      /\ match scan (all_lines g) with
         | Item _ rest =>
             completed g' = false /\ no_newline (Stream.buffer g')
             /\ all_lines g' = rest
         | _ => completed g' = true
         end.
Proof.
  induction source as [|chunk source IH]; intros buffer lines Hb g;
    unfold all_lines in *; subst g; cbn [Stream.lines Stream.buffer Stream.source].
  - cbn [map List.concat]. rewrite app_nil_r.
    destruct (no_newline_lines _ Hb) as [-> _]. rewrite app_nil_r.
    cbn [resume].
    destruct (scan lines) as [parsed rest| |text|] eqn:Es;
      eexists; (split; [reflexivity|]); cbn; auto.
    repeat split; auto.
    cbn [map List.concat]. rewrite app_nil_r.
    destruct (no_newline_lines _ Hb) as [-> _]. apply app_nil_r.
  - cbn [map List.concat]. rewrite app_assoc, lines_app.
    cbn [resume]. rewrite scan_app.
    destruct (scan lines) as [parsed rest| |text|] eqn:Es.
    + eexists; split; [reflexivity|]. cbn.
      repeat split; auto.
      unfold all_lines; cbn [Stream.lines Stream.buffer Stream.source map List.concat].
      rewrite app_assoc, lines_app. reflexivity.
    + eexists; split; [reflexivity|]; reflexivity.
    + eexists; split; [reflexivity|]; reflexivity.
    + specialize (IH (last (split_nl (buffer ++ Utf8.toString chunk)) [])
                     (removelast (split_nl (buffer ++ Utf8.toString chunk)))
                     (fragment_no_newline _)).
      cbn [Stream.lines Stream.buffer Stream.source] in IH.
      exact IH.
Qed.

Lemma pulls_completed (n : nat) (g : generator) :
  completed g = true -> pulls n g = repeat Done n.
Proof.
  intros Hc. induction n as [|n IH]; [reflexivity|].
  cbn [pulls repeat]. unfold next. rewrite Hc. f_equal. exact IH.
Qed.

Lemma firstn_repeat_le (A : Type) (x : A) (n m : nat) :
  n <= m -> firstn n (repeat x m) = repeat x n.
Proof.
  revert m; induction n as [|n IH]; intros m Hle; [reflexivity|].
  destruct m as [|m]; [lia|].
  cbn [repeat firstn]. f_equal. apply IH. lia.
Qed.

Lemma firstn_padding (A : Type) (x : A) (l : list A) (n m : nat) :
  n <= m -> firstn n (l ++ repeat x m) = firstn n (l ++ repeat x n).
Proof.
  revert n m; induction l as [|y l IH]; intros n m Hle.
  - cbn [app]. rewrite !firstn_repeat_le by lia. reflexivity.
  - destruct n as [|n]; [reflexivity|].
    cbn [app firstn]. f_equal.
    rewrite (IH n m) by lia. rewrite (IH n (S n)) by lia. reflexivity.
Qed.

(** The pulls of a running generator are the events of its lines, then
    [Done] for ever. *)
Theorem pulls_events (n : nat) :
  forall g,
    completed g = false ->
    no_newline (buffer g) ->
    pulls n g = firstn n (events (all_lines g) ++ repeat Done n).
Proof.
  induction n as [|n IH]; intros g Hc Hb; [reflexivity|].
  cbn [pulls]. unfold next. rewrite Hc.
  destruct g as [buffer lines source completed]; cbn in Hc, Hb; subst completed.
  cbn [Stream.buffer Stream.lines Stream.source].
  destruct (resume_scan source buffer lines Hb) as (g' & -> & Hg').
  rewrite events_scan.
  destruct (scan _) as [parsed rest| |text|] eqn:Es.
  - destruct Hg' as (Hc' & Hb' & <-).
    cbn [app firstn]. f_equal.
    rewrite (IH g' Hc' Hb'). symmetry. apply firstn_padding. lia.
  - rewrite (pulls_completed n g' Hg'). cbn [app repeat firstn].
    f_equal. symmetry; apply firstn_repeat_le; lia.
  - rewrite (pulls_completed n g' Hg'). cbn [app firstn]. f_equal.
    symmetry; apply firstn_repeat_le; lia.
  - rewrite (pulls_completed n g' Hg'). cbn [app repeat firstn].
    f_equal. symmetry; apply firstn_repeat_le; lia.
Qed.

End Generator.

(** ** Decoding buffers one by one *)

Section Decoding.

(** Decoding a run of bytes in two parts gives the same text when the
    first part does not end inside a multi-byte sequence. *)
Lemma decode_app (a : list N) :
  forall st b,
    state_after st a = None ->
    Utf8.decode st (a ++ b) = Utf8.decode st a ++ Utf8.decode None b.
Proof.
  induction a as [|x a IH]; intros st b H.
  - cbn in H; subst st; reflexivity.
  - cbn [app Utf8.decode state_after] in *.
    destruct st as [p|].
    + destruct (N.leb (Utf8.lower p) x && N.leb x (Utf8.upper p)).
      * destruct (Utf8.needed p) as [|[|n]];
          rewrite (IH _ b H); rewrite ?app_assoc; reflexivity.
      * destruct (Utf8.lead x) as [out|q];
          rewrite (IH _ b H); rewrite ?app_assoc; reflexivity.
    + destruct (Utf8.lead x) as [out|q];
        rewrite (IH _ b H); rewrite ?app_assoc; reflexivity.
Qed.

Lemma toString_app (c1 c2 : list byte) :
  whole c1 = true ->
  Utf8.toString (c1 ++ c2) = Utf8.toString c1 ++ Utf8.toString c2.
Proof.
  unfold whole, Utf8.toString. intros H.
  rewrite map_app. apply decode_app.
  destruct (state_after None (map Byte.to_N c1)); [discriminate|reflexivity].
Qed.

Lemma state_after_app (a : list N) :
  forall st b, state_after st (a ++ b) = state_after (state_after st a) b.
Proof.
  induction a as [|x a IH]; intros st b; [reflexivity|].
  cbn [app state_after].
  destruct st as [p|].
  - destruct (N.leb (Utf8.lower p) x && N.leb x (Utf8.upper p)).
    + destruct (Utf8.needed p) as [|[|n]]; apply IH.
    + destruct (Utf8.lead x); apply IH.
  - destruct (Utf8.lead x); apply IH.
Qed.

Lemma whole_app (c1 c2 : list byte) :
  whole c1 = true -> whole c2 = true -> whole (c1 ++ c2) = true.
Proof.
  unfold whole. rewrite map_app, state_after_app.
  destruct (state_after None (map Byte.to_N c1)); [discriminate|].
  intros _ H; exact H.
Qed.

Lemma whole_concat (chunks : list (list byte)) :
  forallb whole chunks = true -> whole (List.concat chunks) = true.
Proof.
  induction chunks as [|c chunks IH]; cbn [forallb List.concat]; [reflexivity|].
  rewrite andb_true_iff. intros [Hc Hr]. apply whole_app; auto.
Qed.

(** Chunks cut at character boundaries decode, one by one, to the text of
    the whole stream. *)
Lemma toString_concat (chunks : list (list byte)) :
  forallb whole chunks = true ->
  List.concat (map Utf8.toString chunks) = Utf8.toString (List.concat chunks).
Proof.
  induction chunks as [|c chunks IH]; cbn [forallb List.concat map]; [reflexivity|].
  rewrite andb_true_iff. intros [Hc Hr].
  rewrite toString_app by exact Hc. rewrite IH by exact Hr. reflexivity.
Qed.

Lemma ascii_whole (chunk : list byte) :
  forallb ascii chunk = true -> whole chunk = true.
Proof.
  unfold whole.
  induction chunk as [|b chunk IH]; cbn [forallb map state_after]; [reflexivity|].
  rewrite andb_true_iff. intros [Hb Hr].
  unfold ascii in Hb. unfold Utf8.lead. rewrite Hb. exact (IH Hr).
Qed.

Lemma forallb_concat (A : Type) (f : A -> bool) (ls : list (list A)) :
  forallb f (List.concat ls) = forallb (forallb f) ls.
Proof.
  induction ls as [|l ls IH]; [reflexivity|].
  cbn [List.concat forallb]. rewrite forallb_app, IH. reflexivity.
Qed.

End Decoding.

(** ** Chunk boundaries *)

Section Chunks.

Import Stream.

(** The pulls depend on the chunks only through the text they decode to. *)
Theorem pulls_text (chunks1 chunks2 : list (list byte)) (n : nat) :
  List.concat (map Utf8.toString chunks1)
  = List.concat (map Utf8.toString chunks2) ->
  pulls n (streamAsyncIterable chunks1) = pulls n (streamAsyncIterable chunks2).
Proof.
  intros E. unfold streamAsyncIterable, start.
  rewrite !pulls_events by reflexivity.
  unfold all_lines. cbn [Stream.lines Stream.buffer Stream.source app].
  rewrite E. reflexivity.
Qed.

(** A stream cut at character boundaries is decoded like the same bytes in
    one chunk. *)
Theorem pulls_whole_chunks (chunks : list (list byte)) (n : nat) :
  forallb whole chunks = true ->
  pulls n (streamAsyncIterable chunks)
  = pulls n (streamAsyncIterable [List.concat chunks]).
Proof.
  intros H. apply pulls_text.
  cbn [map List.concat]. rewrite app_nil_r. apply toString_concat, H.
Qed.

End Chunks.

(** ** The streaming decoder *)

Section Decoder.

Import Stream.

Lemma resume_eq (source : list (list byte)) (buffer : jsstring)
      (lines : list jsstring) :
  resume source buffer lines
  = let stop := {| buffer := buffer; lines := []; source := source;
                   completed := true |} in
    match scan lines with
    | Item parsed rest =>
        (Yield parsed, {| buffer := buffer; lines := rest; source := source;
                          completed := false |})
    | Sentinel => (Done, stop)
    | Invalid text => (Raise (SyntaxError_ text), stop)
    | Consumed =>
        match source with
        | [] => (Done, stop)
        | chunk :: source' =>
            let lines := split_nl (buffer ++ Utf8.toString chunk) in
            resume source' (last lines []) (removelast lines)
        end
    end.
Proof. destruct source; reflexivity. Qed.

Lemma events_items (pre l : list jsstring) (items : list value) :
  items_of pre = Some items ->
  events (pre ++ l) = map Yield items ++ events l.
Proof.
  revert items; induction pre as [|line pre IH]; intros items H.
  - cbn in H. injection H as <-. reflexivity.
  - cbn [app events items_of] in *.
    destruct (data_line line); [|exact (IH _ H)].
    destruct (JSString.eqb (payload line) (txt "[DONE]")); [discriminate|].
    destruct (JSON.parse (payload line)) as [parsed|]; [|discriminate].
    destruct (items_of pre) as [vs|]; [|discriminate].
    cbn in H. injection H as <-.
    cbn [map app]. f_equal. apply IH. reflexivity.
Qed.

Lemma pulls_stream (chunks : list (list byte)) (n : nat) :
  pulls n (streamAsyncIterable chunks)
  = firstn n (events (stream_lines chunks) ++ repeat Done n).
Proof.
  unfold streamAsyncIterable, start.
  rewrite pulls_events by reflexivity. reflexivity.
Qed.

End Decoder.

Section DecoderClaims.

Import Stream.

Lemma ascii_chunks_whole (chunks : list (list byte)) :
  forallb ascii (List.concat chunks) = true -> forallb whole chunks = true.
Proof.
  rewrite forallb_concat.
  induction chunks as [|c chunks IH]; cbn [forallb]; [reflexivity|].
  rewrite !andb_true_iff. intros [Hc Hr]. split; [apply ascii_whole, Hc | apply IH, Hr].
Qed.

Lemma skip_lines (skipped l : list jsstring) :
  forallb (fun line => negb (data_line line)) skipped = true ->
  scan (skipped ++ l) = scan l.
Proof.
  induction skipped as [|line skipped IH]; cbn [forallb app scan]; [reflexivity|].
  rewrite andb_true_iff, negb_true_iff. unfold data_line at 1.
  intros [-> Hr]. apply IH, Hr.
Qed.

End DecoderClaims.

(** C1: the bytes [data: {"a":1}\n\ndata: {"b":2}\n\ndata: [DONE]\n],
    delivered to the decoder in any number of chunks, give the parsed object
    [{"a":1}], then the parsed object [{"b":2}], and then the sequence is
    over: every later pull reports the end. *)
Theorem stream_two_items_then_done (chunks : list (list byte)) (n : nat) :
  List.concat chunks = Utf8.wire "data: {'a':1}||data: {'b':2}||data: [DONE]|" ->
  Stream.pulls n (Stream.streamAsyncIterable chunks)
  = firstn n ([Stream.Yield (one_field "a" 1); Stream.Yield (one_field "b" 2)]
              ++ repeat Stream.Done n).
Proof.
  intros E.
  rewrite pulls_whole_chunks.
  - rewrite E, pulls_stream. reflexivity.
  - apply ascii_chunks_whole. rewrite E. reflexivity.
Qed.

Lemma stream_two_items_then_done_witness :
  Stream.pulls 5 (Stream.streamAsyncIterable
                    [Utf8.wire "data: {'a':1}||da"; Utf8.wire "ta: {'b':2}||data: [DONE]|"])
  = [Stream.Yield (one_field "a" 1); Stream.Yield (one_field "b" 2);
     Stream.Done; Stream.Done; Stream.Done].
Proof.
  exact (stream_two_items_then_done
           [Utf8.wire "data: {'a':1}||da"; Utf8.wire "ta: {'b':2}||data: [DONE]|"]
           5 eq_refl).
Defined.

(** C2, at the input where it fails: the line made of [data: ], a double
    quote, the two bytes c3 a9 of the letter U+00E9, a double quote and a
    line feed, cut between c3 and a9.  In one chunk the item is the string
    U+00E9; in two chunks each half is decoded on its own, each gives
    U+FFFD, and the item is another string: the two deliveries of the same
    bytes are told apart by the first pull. *)
Theorem stream_split_inside_character :
  let entire := Utf8.wire "data: '" ++ [xc3; xa9] ++ Utf8.wire "'|" in
  let first := Utf8.wire "data: '" ++ [xc3] in
  let second := [xa9] ++ Utf8.wire "'|" in
  first ++ second = entire
  /\ Stream.pulls 2 (Stream.streamAsyncIterable [entire])
     = [Stream.Yield (VString [233%N]); Stream.Done]
  /\ Stream.pulls 2 (Stream.streamAsyncIterable [first; second])
     = [Stream.Yield (VString [65533%N; 65533%N]); Stream.Done]
  /\ Stream.pulls 1 (Stream.streamAsyncIterable [first; second])
     <> Stream.pulls 1 (Stream.streamAsyncIterable [List.concat [first; second]]).
Proof. cbv zeta. repeat split. discriminate. Qed.

(** The line of the specification's example, cut in the middle: the same
    single item as in one chunk. *)
Example stream_split_mid_line :
  Stream.pulls 2 (Stream.streamAsyncIterable
                    [Utf8.wire "data: {'a'"; Utf8.wire ":1}|"])
  = [Stream.Yield (one_field "a" 1); Stream.Done]
  /\ Stream.pulls 2 (Stream.streamAsyncIterable [Utf8.wire "data: {'a':1}|"])
     = [Stream.Yield (one_field "a" 1); Stream.Done].
Proof. split; reflexivity. Qed.

(** C6: a data line whose payload is the sentinel ends the sequence.  For a
    fresh decoder: the items of the lines before it are produced and nothing
    else, whatever follows the line in the stream.  For a suspended decoder
    about to visit the line: every pull reports the end, whatever the
    remaining lines of the chunk, the held-back fragment and the chunks to
    come are. *)
Theorem sentinel_ends_sequence (line : jsstring) :
  data_line line = true ->
  payload line = txt "[DONE]" ->
  (forall chunks pre post items n,
      stream_lines chunks = pre ++ line :: post ->
      items_of pre = Some items ->
      Stream.pulls n (Stream.streamAsyncIterable chunks)
      = firstn n (map Stream.Yield items ++ repeat Stream.Done n))
  /\ (forall skipped rest buffer source n,
         forallb (fun l => negb (data_line l)) skipped = true ->
         Stream.pulls n {| Stream.buffer := buffer;
                           Stream.lines := skipped ++ line :: rest;
                           Stream.source := source;
                           Stream.completed := false |}
         = repeat Stream.Done n).
Proof.
  intros Hd Hp.
  assert (Hs : forall rest, Stream.scan (line :: rest) = Stream.Sentinel).
  { intros rest. cbn [Stream.scan]. unfold data_line, payload in *.
    rewrite Hd, Hp. reflexivity. }
  split.
  - intros chunks pre post items n Hl Hi.
    rewrite pulls_stream, Hl, (events_items _ _ _ Hi), events_scan, Hs.
    rewrite app_nil_r. reflexivity.
  - intros skipped rest buffer source n Hk.
    destruct n as [|n]; [reflexivity|].
    cbn [Stream.pulls]. unfold Stream.next. cbn [Stream.completed Stream.source Stream.buffer Stream.lines].
    rewrite resume_eq, (skip_lines _ _ Hk), Hs. cbn [repeat]. f_equal.
    apply pulls_completed. reflexivity.
Qed.

Lemma sentinel_ends_sequence_witness :
  Stream.pulls 4 (Stream.streamAsyncIterable
                    [Utf8.wire "data: {'a':1}|data: [DONE]|data: {'b':2}|data: {'c"])
  = [Stream.Yield (one_field "a" 1); Stream.Done; Stream.Done; Stream.Done]
  /\ Stream.pulls 3 {| Stream.buffer := wtxt "data: {'c";
                       Stream.lines := [[]; txt "data: [DONE]"; wtxt "data: {'b':2}"];
                       Stream.source := [Utf8.wire "':3}|"];
                       Stream.completed := false |}
     = [Stream.Done; Stream.Done; Stream.Done].
Proof.
  pose proof (sentinel_ends_sequence (txt "data: [DONE]") eq_refl eq_refl) as [G L].
  split.
  - exact (G [Utf8.wire "data: {'a':1}|data: [DONE]|data: {'b':2}|data: {'c"]
             [wtxt "data: {'a':1}"] [wtxt "data: {'b':2}"] [one_field "a" 1] 4
             eq_refl eq_refl).
  - exact (L [[]] [wtxt "data: {'b':2}"] (wtxt "data: {'c") [Utf8.wire "':3}|"] 3 eq_refl).
Defined.

(** C7: a data line whose payload is not the sentinel and is not JSON makes
    the pull that reaches it reject with the parse error; the items of the
    lines before it have been produced by the earlier pulls, and every later
    pull reports the end.  The stream
    [data: {"a":1}\ndata: not-json\n] is the witness. *)
Theorem invalid_json_is_terminal
        (chunks : list (list byte)) (pre post : list jsstring)
        (line : jsstring) (items : list value) (n : nat) :
  stream_lines chunks = pre ++ line :: post ->
  items_of pre = Some items ->
  data_line line = true ->
  payload line <> txt "[DONE]" ->
  JSON.parse (payload line) = None ->
  Stream.pulls n (Stream.streamAsyncIterable chunks)
  = firstn n (map Stream.Yield items
              ++ Stream.Raise (SyntaxError_ (payload line))
              :: repeat Stream.Done n).
Proof.
  intros Hl Hi Hd Hp Hj.
  rewrite pulls_stream, Hl, (events_items _ _ _ Hi).
  cbn [events]. rewrite Hd, Hj.
  destruct (JSString.eqb (payload line) (txt "[DONE]")) eqn:E.
  - apply jsstring_eqb_spec in E. contradiction.
  - rewrite <- !app_assoc. cbn [app].
    change (Stream.Raise (SyntaxError_ (payload line)) :: repeat Stream.Done n)
      with ([Stream.Raise (SyntaxError_ (payload line))] ++ repeat Stream.Done n).
    rewrite !app_assoc. reflexivity.
Qed.

Lemma invalid_json_is_terminal_witness :
  Stream.pulls 3 (Stream.streamAsyncIterable [Utf8.wire "data: {'a':1}|data: not-json|"])
  = [Stream.Yield (one_field "a" 1);
     Stream.Raise (SyntaxError_ (txt "not-json"));
     Stream.Done].
Proof.
  refine (invalid_json_is_terminal
            [Utf8.wire "data: {'a':1}|data: not-json|"]
            [wtxt "data: {'a':1}"] [] (txt "data: not-json") [one_field "a" 1] 3
            eq_refl eq_refl eq_refl _ eq_refl).
  discriminate.
Defined.

(** ** The payload of a data line *)

Section Payload.

Lemma startsWith_app (p s : jsstring) :
  startsWith p s = true -> s = p ++ skipn (List.length p) s.
Proof.
  revert s; induction p as [|x p IH]; intros s H; [reflexivity|].
  destruct s as [|y s]; [discriminate|].
  cbn [startsWith] in H. apply andb_true_iff in H as [Hx Hp].
  apply N.eqb_eq in Hx. subst y.
  cbn [List.length skipn app]. f_equal. apply IH, Hp.
Qed.

Lemma trimEnd_cons (c : char16) (s : jsstring) :
  isWhiteSpace c = false -> trimEnd (c :: s) = c :: trimEnd s.
Proof.
  intros Hc. cbn [trimEnd]. rewrite Hc.
  destruct (trimEnd s); reflexivity.
Qed.

(** Without the space after the colon the five units [data:] survive the
    replacement and both trims. *)
Lemma content_keeps_prefix (t : jsstring) :
  startsWith (txt "data: ") (txt "data:" ++ t) = false ->
  Stream.content (txt "data:" ++ t)
  = txt "data:" ++ trimEnd (replace (txt "data: ") [] t).
Proof.
  intros H. unfold Stream.content.
  assert (E : replace (txt "data: ") [] (txt "data:" ++ t)
              = txt "data:" ++ replace (txt "data: ") [] t).
  { change (txt "data:" ++ t)
      with (100 :: 97 :: 116 :: 97 :: 58 :: t)%N in *.
    cbn [replace]. rewrite H. reflexivity. }
  rewrite E. unfold trim.
  change (txt "data:" ++ replace (txt "data: ") [] t)
    with (100 :: 97 :: 116 :: 97 :: 58 :: replace (txt "data: ") [] t)%N.
  cbn [trimStart]. change (isWhiteSpace 100%N) with false. cbv iota.
  rewrite !trimEnd_cons by reflexivity. reflexivity.
Qed.

(** A text that starts with [data:] is not JSON and is not the sentinel. *)
Lemma data_prefix_not_json (t : jsstring) :
  JSON.parse (txt "data:" ++ t) = None
  /\ JSString.eqb (txt "data:" ++ t) (txt "[DONE]") = false.
Proof. split; reflexivity. Qed.

End Payload.

(** C8: what is removed from a data line is the literal [data: ], with its
    one space, and the result is trimmed.  A line that starts with [data: ]
    has the text after it, trimmed, as payload.  A line that starts with
    [data:] without the space keeps these five characters at the head of its
    payload, and it is this payload that [JSON.parse] gets and rejects. *)
Theorem data_prefix_needs_space (line : jsstring) :
  data_line line = true ->
  (forall rest, trim line = txt "data: " ++ rest -> payload line = trim rest)
  /\ (startsWith (txt "data: ") (trim line) = false ->
      startsWith (txt "data:") (payload line) = true
      /\ forall rest,
          Stream.scan (line :: rest) = Stream.Invalid (payload line)).
Proof.
  intros Hd. split.
  - intros rest E. unfold payload, Stream.content. rewrite E. reflexivity.
  - intros Hs. unfold data_line in Hd.
    pose proof (startsWith_app _ _ Hd) as E.
    set (t := skipn (List.length (txt "data:")) (trim line)) in E.
    assert (Hp : payload line
                 = txt "data:" ++ trimEnd (replace (txt "data: ") [] t)).
    { unfold payload. rewrite E. apply content_keeps_prefix.
      rewrite <- E. exact Hs. }
    split.
    + rewrite Hp. reflexivity.
    + intros rest. cbn [Stream.scan]. rewrite Hd.
      fold (payload line). rewrite Hp.
      destruct (data_prefix_not_json
                  (trimEnd (replace (txt "data: ") [] t))) as [-> ->].
      reflexivity.
Qed.

Lemma data_prefix_needs_space_witness :
  payload (wtxt " data:  {'a':1} ") = wtxt "{'a':1}"
  /\ startsWith (txt "data:") (payload (txt "data:foo")) = true
  /\ Stream.scan [txt "data:foo"] = Stream.Invalid (txt "data:foo").
Proof.
  split; [|split].
  - exact (proj1 (data_prefix_needs_space (wtxt " data:  {'a':1} ") eq_refl)
                 (wtxt " {'a':1}") eq_refl).
  - exact (proj1 (proj2 (data_prefix_needs_space (txt "data:foo") eq_refl)
                        eq_refl)).
  - exact (proj2 (proj2 (data_prefix_needs_space (txt "data:foo") eq_refl)
                        eq_refl) []).
Defined.

(** ** The context buffer *)

Section Context.

Import Client.

Lemma addToContext_valid (e : value) (this : OpenAIClient) :
  valid_entry e = true ->
  addToContext e this = (Returned tt, {| context := context this ++ [e] |}).
Proof.
  intros H. destruct e as [| | | | | |props]; try discriminate.
  cbn [valid_entry] in H. apply andb_true_iff in H as [Hr Hc].
  unfold addToContext, bind, prop, ret. cbn [typeof_object opt_get].
  rewrite Hr. cbn [fst snd]. rewrite Hc. reflexivity.
Qed.

Lemma addToContext_invalid (e : value) (this : OpenAIClient) :
  e <> VNull ->
  valid_entry e = false ->
  addToContext e this = (Threw (Error_ entry_message), this).
Proof.
  intros Hn H. destruct e as [| | | | | |props]; try reflexivity.
  - contradiction.
  - cbn [valid_entry] in H.
    unfold addToContext, bind, prop, ret. cbn [typeof_object opt_get].
    destruct (includes roles (find_prop props (txt "role"))); [|reflexivity].
    cbn [andb] in H. rewrite H. reflexivity.
Qed.

Lemma addToContext_throws_unchanged (e : value) (this this' : OpenAIClient)
      (f : fault) :
  addToContext e this = (Threw f, this') -> this' = this.
Proof.
  destruct (valid_entry e) eqn:V.
  - rewrite (addToContext_valid _ _ V). discriminate.
  - destruct e as [| | | | | |props];
      try (rewrite addToContext_invalid by (discriminate || exact V);
           intros E; injection E as _ <-; reflexivity).
    cbn. intros E; injection E as _ <-; reflexivity.
Qed.

Lemma for_of_valid (es : list value) :
  forall this,
    forallb valid_entry es = true ->
    for_of es addToContext this
    = (Returned tt, {| context := context this ++ es |}).
Proof.
  induction es as [|e es IH]; intros this H.
  - cbn. rewrite app_nil_r. destruct this; reflexivity.
  - cbn [forallb] in H. apply andb_true_iff in H as [He Hr].
    cbn [for_of]. unfold bind at 1. rewrite (addToContext_valid _ _ He).
    rewrite (IH _ Hr). cbn [context]. rewrite <- app_assoc. reflexivity.
Qed.

Lemma for_of_stops (pre post : list value) (bad : value) (f : fault) :
  forall this,
    forallb valid_entry pre = true ->
    fst (addToContext bad {| context := context this ++ pre |}) = Threw f ->
    for_of (pre ++ bad :: post) addToContext this
    = (Threw f, {| context := context this ++ pre |}).
Proof.
  induction pre as [|e pre IH]; intros this H Hb.
  - cbn [app for_of]. unfold bind.
    destruct (addToContext bad {| context := context this ++ [] |})
      as [o this'] eqn:E.
    cbn [fst] in Hb. subst o.
    pose proof (addToContext_throws_unchanged _ _ _ _ E) as ->.
    rewrite app_nil_r in E. destruct this as [c]. cbn [context] in *.
    rewrite E. rewrite app_nil_r. reflexivity.
  - cbn [forallb] in H. apply andb_true_iff in H as [He Hr].
    cbn [app for_of]. unfold bind at 1. rewrite (addToContext_valid _ _ He).
    rewrite (IH {| context := context this ++ [e] |} Hr).
    + cbn [context]. rewrite <- app_assoc. reflexivity.
    + cbn [context]. rewrite <- app_assoc. exact Hb.
Qed.

End Context.

(** ** The buffer shared by reference *)

Section SharedMore.

Import Shared.

Lemma deref_update_same (h : store) :
  forall r a, r < List.length h -> deref (update h r a) r = a.
Proof.
  unfold deref. induction h as [|x h IH]; intros r a L; cbn in L; [lia|].
  destruct r as [|r]; [reflexivity|]. cbn. apply IH. lia.
Qed.

Lemma deref_update_other (h : store) :
  forall r r' a, r <> r' -> deref (update h r a) r' = deref h r'.
Proof.
  unfold deref. induction h as [|x h IH]; intros r r' a N; [reflexivity|].
  destruct r as [|r], r' as [|r']; try reflexivity; [contradiction|].
  cbn. apply IH. lia.
Qed.

Lemma length_update (h : store) :
  forall r a, List.length (update h r a) = List.length h.
Proof.
  induction h as [|x h IH]; intros r a; [reflexivity|].
  destruct r; cbn; [reflexivity|]. rewrite IH. reflexivity.
Qed.

Lemma deref_alloc_old (h : store) (a : list value) (r : ref) :
  r < List.length h -> deref (h ++ [a]) r = deref h r.
Proof. intros L. unfold deref. apply app_nth1, L. Qed.

Lemma deref_alloc_new (h : store) (a : list value) :
  deref (h ++ [a]) (List.length h) = a.
Proof.
  unfold deref. rewrite app_nth2 by lia. rewrite Nat.sub_diag. reflexivity.
Qed.

End SharedMore.

(** ** Batches on arrays of the store *)

Section LiveBatch.

Import Shared.

Lemma addToContext_rejection (e : value) (this : Client.OpenAIClient) :
  valid_entry e = false ->
  Client.addToContext e this = (Client.Threw (rejection e), this).
Proof.
  intros V. destruct e as [| | | | | |props];
    try (apply addToContext_invalid; [discriminate|exact V]).
  reflexivity.
Qed.

Lemma shared_add_valid (h : store) (this : OpenAIClient) (e : value) :
  valid_entry e = true ->
  addToContext e (h, this)
  = (Client.Returned tt,
     (update h (context this) (deref h (context this) ++ [e]), this)).
Proof.
  intros V. unfold addToContext, in_place.
  rewrite (addToContext_valid e _ V). reflexivity.
Qed.

Lemma shared_add_invalid (h : store) (this : OpenAIClient) (e : value) :
  valid_entry e = false ->
  addToContext e (h, this)
  = (Client.Threw (rejection e),
     (update h (context this) (deref h (context this)), this)).
Proof.
  intros V. unfold addToContext, in_place.
  rewrite (addToContext_rejection e _ V). reflexivity.
Qed.

Lemma skipn_nth_error (A : Type) (l : list A) :
  forall i x, nth_error l i = Some x -> skipn i l = x :: skipn (S i) l.
Proof.
  induction l as [|y l IH]; intros [|i] x E; try discriminate.
  - injection E as ->. reflexivity.
  - cbn [nth_error] in E. rewrite (IH i x E) at 1. reflexivity.
Qed.

Lemma forallb_nth_error (A : Type) (f : A -> bool) (l : list A) (i : nat)
      (x : A) :
  forallb f l = true -> nth_error l i = Some x -> f x = true.
Proof.
  intros H E. rewrite forallb_forall in H. apply H.
  eapply nth_error_In, E.
Qed.

(** The loop reaches an entry that is not valid: it throws there, and
    what was appended before stays. *)
Lemma live_for_of_stops (fuel : nat) :
  forall i (h : store) this r pre bad post tail,
    context this < List.length h ->
    deref h r = pre ++ bad :: post ++ tail ->
    i <= List.length pre ->
    forallb valid_entry pre = true ->
    valid_entry bad = false ->
    List.length pre - i < fuel ->
    exists h',
      Live.for_of fuel r i addToContext (h, this)
      = Some (Client.Threw (rejection bad), (h', this))
      /\ deref h' (context this) = deref h (context this) ++ skipn i pre
      /\ List.length h' = List.length h.
Proof.
  induction fuel as [|fuel IH]; intros i h this r pre bad post tail L D I V B F;
    [lia|].
  cbn [Live.for_of fst]. rewrite D.
  destruct (Nat.eq_dec i (List.length pre)) as [->|N].
  - rewrite nth_error_app2 by lia. rewrite Nat.sub_diag. cbn [nth_error].
    rewrite (shared_add_invalid h this bad B).
    eexists. split; [reflexivity|].
    rewrite deref_update_same by exact L.
    rewrite skipn_all, app_nil_r, length_update. split; reflexivity.
  - assert (Lt : i < List.length pre) by lia.
    rewrite nth_error_app1 by exact Lt.
    destruct (nth_error pre i) as [x|] eqn:E;
      [|apply nth_error_None in E; lia].
    pose proof (forallb_nth_error _ _ _ _ _ V E) as Vx.
    rewrite (shared_add_valid h this x Vx).
    set (h1 := update h (context this) (deref h (context this) ++ [x])).
    assert (L1 : context this < List.length h1)
      by (unfold h1; rewrite length_update; exact L).
    assert (D1 : exists tail1, deref h1 r = pre ++ bad :: post ++ tail1).
    { destruct (Nat.eq_dec r (context this)) as [->|Nr].
      - exists (tail ++ [x]). unfold h1.
        rewrite deref_update_same by exact L. rewrite D.
        rewrite <- !app_assoc. cbn [app]. rewrite <- !app_assoc. reflexivity.
      - exists tail. unfold h1.
        rewrite deref_update_other by (intros Q; apply Nr; symmetry; exact Q).
        exact D. }
    destruct D1 as [tail1 D1].
    destruct (IH (S i) h1 this r pre bad post tail1 L1 D1 ltac:(lia) V B ltac:(lia))
      as (h' & R & C & Len).
    exists h'. split; [exact R|]. split.
    + rewrite C. unfold h1. rewrite deref_update_same by exact L.
      rewrite (skipn_nth_error _ pre i x E), <- app_assoc. reflexivity.
    + rewrite Len. unfold h1. apply length_update.
Qed.

(** The loop on an array that is not the buffer's own, all entries valid:
    it ends and has appended them in order. *)
Lemma live_for_of_returns (fuel : nat) :
  forall i (h : store) this r,
    context this < List.length h ->
    r <> context this ->
    forallb valid_entry (deref h r) = true ->
    List.length (deref h r) - i < fuel ->
    exists h',
      Live.for_of fuel r i addToContext (h, this)
      = Some (Client.Returned tt, (h', this))
      /\ deref h' (context this)
         = deref h (context this) ++ skipn i (deref h r)
      /\ List.length h' = List.length h.
Proof.
  induction fuel as [|fuel IH]; intros i h this r L Nr V F; [lia|].
  cbn [Live.for_of fst].
  destruct (nth_error (deref h r) i) as [x|] eqn:E.
  - pose proof (forallb_nth_error _ _ _ _ _ V E) as Vx.
    rewrite (shared_add_valid h this x Vx).
    set (h1 := update h (context this) (deref h (context this) ++ [x])).
    assert (D1 : deref h1 r = deref h r).
    { unfold h1. apply deref_update_other.
      intros Q; apply Nr; symmetry; exact Q. }
    assert (Lx : i < List.length (deref h r))
      by (apply nth_error_Some; rewrite E; discriminate).
    destruct (IH (S i) h1 this r) as (h' & R & C & Len).
    + unfold h1. rewrite length_update. exact L.
    + exact Nr.
    + rewrite D1. exact V.
    + rewrite D1. lia.
    + exists h'. split; [exact R|]. split.
      * rewrite C, D1. unfold h1. rewrite deref_update_same by exact L.
        rewrite (skipn_nth_error _ (deref h r) i x E), <- app_assoc.
        reflexivity.
      * rewrite Len. unfold h1. apply length_update.
  - exists h. split; [reflexivity|]. split; [|reflexivity].
    apply nth_error_None in E. rewrite skipn_all2 by exact E.
    symmetry; apply app_nil_r.
Qed.

(** The loop on the buffer's own array, not empty and all entries valid:
    every step appends one more entry to visit, and no amount of fuel lets
    it end. *)
Lemma live_for_of_diverges (fuel : nat) :
  forall i (h : store) this,
    context this < List.length h ->
    i < List.length (deref h (context this)) ->
    forallb valid_entry (deref h (context this)) = true ->
    Live.for_of fuel (context this) i addToContext (h, this) = None.
Proof.
  induction fuel as [|fuel IH]; intros i h this L I V; [reflexivity|].
  cbn [Live.for_of fst].
  destruct (nth_error (deref h (context this)) i) as [x|] eqn:E;
    [|apply nth_error_None in E; lia].
  pose proof (forallb_nth_error _ _ _ _ _ V E) as Vx.
  rewrite (shared_add_valid h this x Vx).
  apply IH.
  - rewrite length_update. exact L.
  - rewrite deref_update_same by exact L. rewrite length_app. cbn. lia.
  - rewrite deref_update_same by exact L.
    rewrite forallb_app, V. cbn. rewrite Vx. reflexivity.
Qed.

End LiveBatch.

(** C4 as stated fails: the entry of the repository's own test, with role
    [invalid], makes [addToContext] throw a plain [Error] with the stated
    message, which is no instance of [ValidationError] (nor of any class of
    [errors.ts]); the buffer is left as it was. *)
Lemma addToContext_throws_plain_error :
  Client.addToContext (entry "invalid" "This should fail.") Client.new_client
  = (Client.Threw (Error_ Client.entry_message), Client.new_client)
  /\ forall i : Errors.instance, Error_ Client.entry_message <> Thrown i.
Proof. split; [reflexivity | discriminate]. Qed.

(** C4, amended: for every entry other than [null] whose role is outside
    the three names or whose content is not a string, [addToContext] throws
    a plain [Error] whose message is exactly the stated text, and the
    buffer is unchanged: [getContext] returns the same sequence before and
    after. *)
Theorem addToContext_rejects_invalid
        (e : value) (this : Client.OpenAIClient) (snapshot : list value) :
  e <> VNull ->
  valid_entry e = false ->
  Client.getContext this = (Client.Returned snapshot, this) ->
  exists this',
    Client.addToContext e this
    = (Client.Threw (Error_ Client.entry_message), this')
    /\ Client.getContext this' = (Client.Returned snapshot, this')
    /\ Client.entry_message
       = wtxt "Context entry must be an object with role ('system', 'user', or 'assistant') and content properties".
Proof.
  intros Hn Hv Hs. exists this.
  rewrite (addToContext_invalid e this Hn Hv). auto.
Qed.

Lemma addToContext_rejects_invalid_witness :
  exists this',
    Client.addToContext (entry "user" "kept") Client.new_client
    = (Client.Returned tt, this')
    /\ exists this'',
      Client.addToContext (VObject [(txt "role", VString (txt "user"))]) this'
      = (Client.Threw (Error_ Client.entry_message), this'')
      /\ Client.getContext this''
         = (Client.Returned [entry "user" "kept"], this'').
Proof.
  eexists. split; [reflexivity|].
  destruct (addToContext_rejects_invalid
              (VObject [(txt "role", VString (txt "user"))])
              {| Client.context := [entry "user" "kept"] |}
              [entry "user" "kept"]
              ltac:(discriminate) eq_refl eq_refl) as (this'' & E & G & _).
  exists this''. split; [exact E | exact G].
Defined.

(** C5: on an input that is not an array [addBatchToContext] throws with
    the message [Input must be an array of context entries] and changes
    nothing.  On an array it calls [addToContext] on the entries one at a
    time, in order.  When it meets an entry that is not valid it throws
    what [addToContext] throws and the entries before it stay appended (no
    rollback): the witness is [valid, valid, invalid].  When all entries
    are valid and the array is not the buffer's own, it returns with the
    entries appended in order.  (On the buffer's own array, not empty and
    all valid, every step appends an entry that the loop then visits, and
    the call does not return.) *)
Theorem addBatchToContext_no_rollback (s : Shared.state) :
  Shared.context (snd s) < List.length (fst s) ->
  (forall (v : value) (fuel : nat),
      isArray v = false ->
      Live.addBatchToContext fuel (Live.Given v) s
      = Some (Client.Threw
                (Error_ (txt "Input must be an array of context entries")), s))
  /\ (forall contextEntries entries fuel,
         Live.elements contextEntries s = Some entries ->
         Live.is_buffer contextEntries s = false ->
         forallb valid_entry entries = true ->
         List.length entries < fuel ->
         exists s',
           Live.addBatchToContext fuel contextEntries s
           = Some (Client.Returned tt, s')
           /\ Live.buffer s' = Live.buffer s ++ entries
           /\ snd s' = snd s)
  /\ (forall contextEntries pre bad post fuel,
         Live.elements contextEntries s = Some (pre ++ bad :: post) ->
         forallb valid_entry pre = true ->
         valid_entry bad = false ->
         List.length pre < fuel ->
         exists s',
           Live.addBatchToContext fuel contextEntries s
           = Some (Client.Threw (rejection bad), s')
           /\ Live.buffer s' = Live.buffer s ++ pre
           /\ snd s' = snd s)
  /\ (Live.buffer s <> [] ->
      forallb valid_entry (Live.buffer s) = true ->
      forall fuel,
        Live.addBatchToContext fuel (Live.Held (Shared.context (snd s))) s
        = None).
Proof.
  destruct s as [h this]. cbn [fst snd]. intros L.
  unfold Live.buffer. cbn [fst snd].
  split; [|split; [|split]].
  - intros v fuel H. destruct v; try reflexivity. discriminate.
  - intros contextEntries entries fuel E Nb V F.
    destruct contextEntries as [v|r]; cbn [Live.elements Live.is_buffer fst snd] in E, Nb.
    + destruct v as [| | | | |items|]; try discriminate.
      injection E as ->. cbn [Live.addBatchToContext fst snd].
      destruct (live_for_of_returns fuel 0 (h ++ [entries]) this (List.length h))
        as (h' & R & C & _).
      * rewrite length_app. cbn. lia.
      * lia.
      * rewrite deref_alloc_new. exact V.
      * rewrite deref_alloc_new. lia.
      * exists (h', this). split; [exact R|]. cbn [fst snd].
        rewrite C, deref_alloc_new, (deref_alloc_old h entries _ L).
        split; reflexivity.
    + injection E as <-. apply Nat.eqb_neq in Nb.
      cbn [Live.addBatchToContext].
      destruct (live_for_of_returns fuel 0 h this r L Nb V ltac:(lia))
        as (h' & R & C & _).
      exists (h', this). split; [exact R|]. cbn [fst snd]. split; [exact C|reflexivity].
  - intros contextEntries pre bad post fuel E V B F.
    destruct contextEntries as [v|r]; cbn [Live.elements fst snd] in E.
    + destruct v as [| | | | |items|]; try discriminate.
      injection E as ->. cbn [Live.addBatchToContext fst snd].
      destruct (live_for_of_stops fuel 0 (h ++ [pre ++ bad :: post]) this
                                  (List.length h) pre bad post [])
        as (h' & R & C & _).
      * rewrite length_app. cbn. lia.
      * rewrite deref_alloc_new, app_nil_r. reflexivity.
      * lia.
      * exact V.
      * exact B.
      * lia.
      * exists (h', this). split; [exact R|]. cbn [fst snd].
        rewrite C, (deref_alloc_old h _ _ L). split; reflexivity.
    + injection E as E. cbn [Live.addBatchToContext].
      destruct (live_for_of_stops fuel 0 h this r pre bad post [])
        as (h' & R & C & _); try assumption; try lia.
      * rewrite app_nil_r. exact E.
      * exists (h', this). split; [exact R|]. cbn [fst snd].
        split; [exact C|reflexivity].
  - intros Ne V fuel. cbn [Live.addBatchToContext].
    apply live_for_of_diverges; [exact L| |exact V].
    destruct (Shared.deref h (Shared.context this)); [contradiction|cbn; lia].
Qed.

Lemma addBatchToContext_no_rollback_witness :
  (exists s',
      Live.addBatchToContext
        3 (Live.Given (VArray [entry "system" "You are a helpful assistant.";
                               entry "user" "This is valid.";
                               entry "invalid" "This should fail."]))
        (Shared.new_client [])
      = Some (Client.Threw (Error_ Client.entry_message), s')
      /\ Live.buffer s' = [entry "system" "You are a helpful assistant.";
                           entry "user" "This is valid."])
  /\ Live.addBatchToContext 0 (Live.Given (VString (txt "not an array")))
                            (Shared.new_client [])
     = Some (Client.Threw
               (Error_ (txt "Input must be an array of context entries")),
             Shared.new_client []).
Proof.
  assert (L : 0 < 1) by lia.
  pose proof (addBatchToContext_no_rollback (Shared.new_client []) L)
    as (A & _ & C & _).
  split.
  - assert (F : 2 < 3) by lia.
    destruct (C (Live.Given (VArray [entry "system" "You are a helpful assistant.";
                                     entry "user" "This is valid.";
                                     entry "invalid" "This should fail."]))
                [entry "system" "You are a helpful assistant.";
                 entry "user" "This is valid."]
                (entry "invalid" "This should fail.") [] 3
                eq_refl eq_refl eq_refl F) as (s' & R & B & _).
    exists s'. split; [exact R | exact B].
  - exact (A (VString (txt "not an array")) 0 eq_refl).
Defined.

(** C9: for every valid entry [addToContext] returns, and [getContext]
    then gives the sequence it gave before with the entry added at the end:
    one longer, the earlier entries in their order. *)
Theorem addToContext_appends
        (e : value) (this : Client.OpenAIClient) (snapshot : list value) :
  valid_entry e = true ->
  Client.getContext this = (Client.Returned snapshot, this) ->
  exists this',
    Client.addToContext e this = (Client.Returned tt, this')
    /\ Client.getContext this' = (Client.Returned (snapshot ++ [e]), this')
    /\ List.length (snapshot ++ [e]) = S (List.length snapshot).
Proof.
  intros Hv Hs.
  exists {| Client.context := Client.context this ++ [e] |}.
  rewrite (addToContext_valid e this Hv).
  unfold Client.getContext, Client.read_context in *.
  injection Hs as <-. cbn [Client.context].
  repeat split. rewrite length_app. cbn. lia.
Qed.

Lemma addToContext_appends_witness :
  exists this',
    Client.addToContext (entry "assistant" "Hi there!")
                        {| Client.context := [entry "user" "Hello"] |}
    = (Client.Returned tt, this')
    /\ Client.getContext this'
       = (Client.Returned [entry "user" "Hello"; entry "assistant" "Hi there!"],
          this').
Proof.
  destruct (addToContext_appends
              (entry "assistant" "Hi there!")
              {| Client.context := [entry "user" "Hello"] |}
              [entry "user" "Hello"] eq_refl eq_refl) as (this' & E & G & _).
  exists this'. split; [exact E | exact G].
Defined.

(** C10: [createChatCompletion] posts a payload whose messages are the
    buffered entries, in order, followed by the caller's messages, in order;
    the other options go through as they are, and the client is the same
    after as before, so [getContext] returns the same sequence. *)
Theorem createChatCompletion_prepends_context
        (options : Client.CreateChatCompletionOptions)
        (this : Client.OpenAIClient) (snapshot : list value) :
  Client.getContext this = (Client.Returned snapshot, this) ->
  exists post,
    Client.createChatCompletion options this = (Client.Returned post, this)
    /\ Client.messages (Client.payload post)
       = snapshot ++ Client.messages options
    /\ Client.others (Client.payload post) = Client.others options
    /\ Client.stream (Client.payload post) = Client.stream options
    /\ Client.url post = txt "/chat/completions"
    /\ Client.getContext this = (Client.Returned snapshot, this).
Proof.
  intros Hs.
  unfold Client.getContext, Client.read_context in Hs.
  injection Hs as <-.
  eexists. split; [reflexivity|]. cbn. repeat split.
Qed.

Lemma createChatCompletion_prepends_context_witness :
  exists post,
    Client.createChatCompletion
      {| Client.messages := [entry "user" "Do I need an umbrella?"];
         Client.stream := false;
         Client.others := [(txt "model", VString (txt "gpt-3.5-turbo"))] |}
      {| Client.context := [entry "system" "You are a helpful assistant.";
                            entry "user" "What is the weather today?"] |}
    = (Client.Returned post,
       {| Client.context := [entry "system" "You are a helpful assistant.";
                             entry "user" "What is the weather today?"] |})
    /\ Client.messages (Client.payload post)
       = [entry "system" "You are a helpful assistant.";
          entry "user" "What is the weather today?";
          entry "user" "Do I need an umbrella?"].
Proof.
  destruct (createChatCompletion_prepends_context
              {| Client.messages := [entry "user" "Do I need an umbrella?"];
                 Client.stream := false;
                 Client.others := [(txt "model", VString (txt "gpt-3.5-turbo"))] |}
              {| Client.context := [entry "system" "You are a helpful assistant.";
                                    entry "user" "What is the weather today?"] |}
              [entry "system" "You are a helpful assistant.";
               entry "user" "What is the weather today?"]
              eq_refl) as (post & E & M & _).
  exists post. split; [exact E | exact M].
Defined.

(** ** The error classifier *)




(** * Further properties of the code *)

(** ** The context buffer *)

Section ContextMore.

Import Client.

Lemma for_of_app (a b : list value) (this : OpenAIClient) :
  for_of (a ++ b) addToContext this
  = (for_of a addToContext ;; for_of b addToContext) this.
Proof.
  revert this; induction a as [|e a IH]; intros this.
  - reflexivity.
  - cbn [app for_of]. unfold bind in *.
    destruct (addToContext e this) as [[u|f] this']; [|reflexivity].
    apply IH.
Qed.

Lemma addToContext_invalid_throws (e : value) (this : OpenAIClient) :
  valid_entry e = false -> exists f, addToContext e this = (Threw f, this).
Proof.
  intros V. destruct e as [| | | | | |props];
    try (eexists; apply addToContext_invalid; [discriminate|exact V]).
  eexists. reflexivity.
Qed.

Lemma for_of_leading_valid (entries : list value) :
  forall this,
    snd (for_of entries addToContext this)
    = {| context := context this ++ leading_valid entries |}
    /\ (fst (for_of entries addToContext this) = Returned tt
        <-> forallb valid_entry entries = true).
Proof.
  induction entries as [|e entries IH]; intros this.
  - cbn. rewrite app_nil_r. destruct this. split; [reflexivity|tauto].
  - cbn [for_of leading_valid forallb]. unfold bind.
    destruct (valid_entry e) eqn:V.
    + rewrite (addToContext_valid e this V).
      destruct (IH {| context := context this ++ [e] |}) as [S R].
      rewrite S. cbn [context]. rewrite <- app_assoc. split; [reflexivity|].
      rewrite R. reflexivity.
    + destruct (addToContext_invalid_throws e this V) as [f ->].
      cbn. rewrite app_nil_r. destruct this.
      split; [reflexivity|]. split; discriminate.
Qed.

End ContextMore.

(** X1: [clearContext] forgets the buffer whatever it holds: followed by
    [getContext] it gives the empty sequence, followed by a batch of valid
    entries it makes [getContext] give exactly that batch, and followed by
    a chat completion it posts the caller's options as they are. *)
Theorem clearContext_then_batch
        (this : Client.OpenAIClient) (entries : list value)
        (options : Client.CreateChatCompletionOptions) :
  Client.bind Client.clearContext (fun _ => Client.getContext) this
  = (Client.Returned [], {| Client.context := [] |})
  /\ (forallb valid_entry entries = true ->
      Client.bind Client.clearContext
        (fun _ => Client.bind (Client.addBatchToContext (VArray entries))
                              (fun _ => Client.getContext)) this
      = (Client.Returned entries, {| Client.context := entries |}))
  /\ (exists post,
         Client.bind Client.clearContext
                     (fun _ => Client.createChatCompletion options) this
         = (Client.Returned post, {| Client.context := [] |})
         /\ Client.payload post = options).
Proof.
  split; [reflexivity|]. split.
  - intros V. unfold Client.bind, Client.clearContext, Client.write_context.
    cbn [Client.addBatchToContext].
    rewrite (for_of_valid entries _ V). reflexivity.
  - eexists. split; [reflexivity|]. cbn. destruct options; reflexivity.
Qed.

Lemma clearContext_then_batch_witness :
  Client.bind Client.clearContext
    (fun _ => Client.bind
                (Client.addBatchToContext
                   (VArray [entry "system" "You are a helpful assistant.";
                            entry "user" "Tell me a joke."]))
                (fun _ => Client.getContext))
    {| Client.context := [entry "user" "Hello, assistant!"] |}
  = (Client.Returned [entry "system" "You are a helpful assistant.";
                      entry "user" "Tell me a joke."],
     {| Client.context := [entry "system" "You are a helpful assistant.";
                           entry "user" "Tell me a joke."] |}).
Proof.
  exact (proj1 (proj2 (clearContext_then_batch
                         {| Client.context := [entry "user" "Hello, assistant!"] |}
                         [entry "system" "You are a helpful assistant.";
                          entry "user" "Tell me a joke."]
                         {| Client.messages := []; Client.stream := false;
                            Client.others := [] |})) eq_refl).
Defined.

Section Invariant.

Import Client.

Lemma leading_valid_all (entries : list value) :
  forallb valid_entry (leading_valid entries) = true.
Proof.
  induction entries as [|e entries IH]; [reflexivity|].
  cbn [leading_valid]. destruct (valid_entry e) eqn:V; [|reflexivity].
  cbn [forallb]. rewrite V. exact IH.
Qed.

Lemma perform_keeps_valid (op : operation) (this : OpenAIClient) :
  forallb valid_entry (context this) = true ->
  forallb valid_entry (context (perform op this)) = true.
Proof.
  intros H. destruct op as [e|es| |options]; cbn [perform].
  - destruct (valid_entry e) eqn:V.
    + rewrite (addToContext_valid e this V). cbn [snd context].
      rewrite forallb_app, H. cbn. rewrite V. reflexivity.
    + destruct (addToContext_invalid_throws e this V) as [f ->]. exact H.
  - destruct es as [| | | | |entries|]; try exact H.
    cbn [addBatchToContext].
    rewrite (proj1 (for_of_leading_valid entries this)). cbn [context].
    rewrite forallb_app, H. apply leading_valid_all.
  - reflexivity.
  - exact H.
Qed.

End Invariant.

(** X4: as long as the buffer is changed through the client's methods
    only (the caller does not write to the array that [getContext] returns
    nor to an entry it has added), every buffered entry is a valid entry:
    starting from a new client, after any sequence of [addToContext],
    [addBatchToContext], [clearContext] and [createChatCompletion] calls
    with any arguments, failed calls included, all buffered entries have a
    role among the three names and a string content. *)
Theorem context_entries_always_valid (ops : list operation) :
  forallb valid_entry
          (Client.context (perform_all ops Client.new_client)) = true.
Proof.
  unfold perform_all.
  assert (G : forall this,
             forallb valid_entry (Client.context this) = true ->
             forallb valid_entry
                     (Client.context
                        (fold_left (fun c op => perform op c) ops this)) = true).
  { induction ops as [|op ops IH]; intros this H; [exact H|].
    cbn [fold_left]. apply IH, perform_keeps_valid, H. }
  apply G. reflexivity.
Qed.

(** X5: the entry [null] passes the [typeof] test and fails on the read of
    its role: [addToContext] throws a [TypeError], not the documented
    message, and changes nothing; in a batch the entries before the [null]
    stay appended and the ones after it are not looked at. *)
Theorem addToContext_null_type_error
        (pre post : list value) (this : Client.OpenAIClient) :
  Client.addToContext VNull this = (Client.Threw TypeError_, this)
  /\ (forallb valid_entry pre = true ->
      Client.addBatchToContext (VArray (pre ++ VNull :: post)) this
      = (Client.Threw TypeError_,
         {| Client.context := Client.context this ++ pre |})).
Proof.
  split; [reflexivity|].
  intros V. cbn [Client.addBatchToContext].
  apply for_of_stops; [exact V | reflexivity].
Qed.

Lemma addToContext_null_type_error_witness :
  Client.addBatchToContext
    (VArray [entry "user" "Hello"; VNull; entry "assistant" "Hi there!"])
    Client.new_client
  = (Client.Threw TypeError_, {| Client.context := [entry "user" "Hello"] |}).
Proof.
  exact (proj2 (addToContext_null_type_error
                  [entry "user" "Hello"] [entry "assistant" "Hi there!"]
                  Client.new_client) eq_refl).
Defined.

(** ** Batches, whatever the entries *)

Section LiveBatchMore.

Import Shared.

Lemma leading_valid_length (entries : list value) :
  List.length (leading_valid entries) <= List.length entries.
Proof.
  induction entries as [|e entries IH]; [reflexivity|].
  cbn [leading_valid]. destruct (valid_entry e); cbn; lia.
Qed.

Lemma batch_all_valid (entries : list value) :
  forallb valid_entry entries = true ->
  batch_outcome entries = Client.Returned tt
  /\ leading_valid entries = entries.
Proof.
  induction entries as [|e entries IH]; [split; reflexivity|].
  cbn [forallb batch_outcome leading_valid]. intros H.
  apply andb_true_iff in H as [-> Hr]. destruct (IH Hr) as [-> ->].
  split; reflexivity.
Qed.

Lemma batch_first_invalid (entries : list value) :
  forallb valid_entry entries = false ->
  exists bad post,
    entries = leading_valid entries ++ bad :: post
    /\ valid_entry bad = false
    /\ batch_outcome entries = Client.Threw (rejection bad).
Proof.
  induction entries as [|e entries IH]; [discriminate|].
  cbn [forallb batch_outcome leading_valid].
  destruct (valid_entry e) eqn:V; cbn [andb].
  - intros H. destruct (IH H) as (bad & post & E & B & O).
    exists bad, post. cbn [app]. rewrite <- E. auto.
  - intros _. exists e, entries. auto.
Qed.

Lemma batch_outcome_returned (entries : list value) :
  batch_outcome entries = Client.Returned tt
  <-> forallb valid_entry entries = true.
Proof.
  induction entries as [|e entries IH]; [split; reflexivity|].
  cbn [forallb batch_outcome]. destruct (valid_entry e); cbn [andb].
  - exact IH.
  - split; discriminate.
Qed.

(** The loop on an array that is not the buffer's own ends, whatever the
    entries are. *)
Lemma live_for_of_fixed (fuel : nat) (h : store) (this : OpenAIClient)
      (r : ref) :
  context this < List.length h ->
  r <> context this ->
  List.length (leading_valid (deref h r)) < fuel ->
  exists h',
    Live.for_of fuel r 0 addToContext (h, this)
    = Some (batch_outcome (deref h r), (h', this))
    /\ deref h' (context this)
       = deref h (context this) ++ leading_valid (deref h r)
    /\ List.length h' = List.length h.
Proof.
  intros L Nr F.
  destruct (forallb valid_entry (deref h r)) eqn:V.
  - destruct (batch_all_valid _ V) as [O E]. rewrite O, E in *.
    apply (live_for_of_returns fuel 0 h this r L Nr V). lia.
  - destruct (batch_first_invalid _ V) as (bad & post & E & B & O).
    rewrite O.
    apply (live_for_of_stops fuel 0 h this r (leading_valid (deref h r))
                             bad post []); try assumption.
    + rewrite app_nil_r. exact E.
    + lia.
    + apply leading_valid_all.
    + lia.
Qed.

Lemma live_given_array (fuel : nat) (h : store) (this : OpenAIClient)
      (entries : list value) :
  context this < List.length h ->
  List.length (leading_valid entries) < fuel ->
  exists h',
    Live.addBatchToContext fuel (Live.Given (VArray entries)) (h, this)
    = Some (batch_outcome entries, (h', this))
    /\ deref h' (context this) = deref h (context this) ++ leading_valid entries
    /\ List.length h' = S (List.length h).
Proof.
  intros L F. cbn [Live.addBatchToContext fst snd].
  destruct (live_for_of_fixed fuel (h ++ [entries]) this (List.length h))
    as (h' & R & C & Len).
  - rewrite length_app. cbn. lia.
  - lia.
  - rewrite deref_alloc_new. exact F.
  - rewrite deref_alloc_new in R, C. rewrite (deref_alloc_old h _ _ L) in C.
    exists h'. split; [exact R|]. split; [exact C|].
    rewrite Len, length_app. cbn. lia.
Qed.

Lemma client_for_of_outcome (entries : list value) :
  forall this,
    Client.for_of entries Client.addToContext this
    = (batch_outcome entries,
       {| Client.context := Client.context this ++ leading_valid entries |}).
Proof.
  induction entries as [|e entries IH]; intros this.
  - cbn. rewrite app_nil_r. destruct this; reflexivity.
  - cbn [Client.for_of batch_outcome leading_valid]. unfold Client.bind.
    destruct (valid_entry e) eqn:V.
    + rewrite (addToContext_valid e this V), IH. cbn [Client.context].
      rewrite <- app_assoc. reflexivity.
    + rewrite (addToContext_rejection e this V), app_nil_r.
      destruct this; reflexivity.
Qed.

(** On an array that is not the buffer's own, the loop on the store and
    the loop on the fixed elements give the same outcome and the same
    buffer. *)
Lemma live_batch_is_fixed_batch (fuel : nat) (h : store) (this : OpenAIClient)
      (r : ref) :
  context this < List.length h ->
  r <> context this ->
  List.length (deref h r) < fuel ->
  exists h',
    Live.for_of fuel r 0 addToContext (h, this)
    = Some (fst (Client.for_of (deref h r) Client.addToContext
                               {| Client.context := deref h (context this) |}),
            (h', this))
    /\ {| Client.context := deref h' (context this) |}
       = snd (Client.for_of (deref h r) Client.addToContext
                            {| Client.context := deref h (context this) |}).
Proof.
  intros L Nr F.
  destruct (live_for_of_fixed fuel h this r L Nr) as (h' & R & C & _).
  - pose proof (leading_valid_length (deref h r)). lia.
  - exists h'. rewrite client_for_of_outcome. cbn [fst snd Client.context].
    rewrite C. split; [exact R | reflexivity].
Qed.

Lemma leading_valid_app (a b : list value) :
  leading_valid (a ++ b)
  = if forallb valid_entry a then a ++ leading_valid b else leading_valid a.
Proof.
  induction a as [|e a IH]; [reflexivity|].
  cbn [app leading_valid forallb]. destruct (valid_entry e); cbn [andb];
    [|reflexivity].
  rewrite IH. destruct (forallb valid_entry a); reflexivity.
Qed.

Lemma batch_outcome_app (a b : list value) :
  batch_outcome (a ++ b)
  = if forallb valid_entry a then batch_outcome b else batch_outcome a.
Proof.
  induction a as [|e a IH]; [reflexivity|].
  cbn [app batch_outcome forallb]. destruct (valid_entry e); cbn [andb];
    [exact IH | reflexivity].
Qed.

End LiveBatchMore.

(** X2: for arrays given by their elements (so neither is the buffer's
    own), a batch on the concatenation of two arrays behaves as the batch
    on the first followed, when that one returns, by the batch on the
    second: the same outcome and the same buffer; when the first throws,
    the concatenation throws the same fault with the same buffer. *)
Theorem addBatchToContext_app
        (s : Shared.state) (a b : list value) (fuel : nat) :
  Shared.context (snd s) < List.length (fst s) ->
  List.length (a ++ b) < fuel ->
  exists o s_ab o_a s_a,
    Live.addBatchToContext fuel (Live.Given (VArray (a ++ b))) s = Some (o, s_ab)
    /\ Live.addBatchToContext fuel (Live.Given (VArray a)) s = Some (o_a, s_a)
    /\ match o_a with
       | Client.Returned _ =>
           exists s_b,
             Live.addBatchToContext fuel (Live.Given (VArray b)) s_a
             = Some (o, s_b)
             /\ Live.buffer s_b = Live.buffer s_ab
       | Client.Threw f =>
           o = Client.Threw f /\ Live.buffer s_a = Live.buffer s_ab
       end.
Proof.
  destruct s as [h this]. cbn [fst snd]. intros L F.
  rewrite length_app in F.
  pose proof (leading_valid_length (a ++ b)) as Lab.
  pose proof (leading_valid_length a) as La.
  pose proof (leading_valid_length b) as Lb.
  rewrite length_app in Lab.
  destruct (live_given_array fuel h this (a ++ b) L ltac:(lia))
    as (hab & Rab & Cab & _).
  destruct (live_given_array fuel h this a L ltac:(lia))
    as (ha & Ra & Ca & Lena).
  exists (batch_outcome (a ++ b)), (hab, this), (batch_outcome a), (ha, this).
  split; [exact Rab|]. split; [exact Ra|].
  unfold Live.buffer. cbn [fst snd].
  rewrite batch_outcome_app. rewrite leading_valid_app in Cab.
  destruct (forallb valid_entry a) eqn:V.
  - destruct (batch_all_valid a V) as [Oa Ea]. rewrite Oa.
    destruct (live_given_array fuel ha this b ltac:(lia) ltac:(lia))
      as (hb & Rb & Cb & _).
    exists (hb, this). split; [exact Rb|]. cbn [fst snd].
    rewrite Cb, Ca, Ea, Cab, app_assoc. reflexivity.
  - destruct (batch_first_invalid a V) as (bad & post & _ & _ & Oa).
    rewrite Oa. split; [reflexivity|]. rewrite Ca, Cab. reflexivity.
Qed.

Lemma addBatchToContext_app_witness :
  exists s_ab s_a s_b,
    Live.addBatchToContext
      4 (Live.Given (VArray ([entry "user" "one"] ++ [entry "assistant" "two"])))
      (Shared.new_client [])
    = Some (Client.Returned tt, s_ab)
    /\ Live.addBatchToContext 4 (Live.Given (VArray [entry "user" "one"]))
                             (Shared.new_client [])
       = Some (Client.Returned tt, s_a)
    /\ Live.addBatchToContext 4 (Live.Given (VArray [entry "assistant" "two"])) s_a
       = Some (Client.Returned tt, s_b)
    /\ Live.buffer s_b = Live.buffer s_ab.
Proof.
  assert (L : 0 < 1) by lia.
  assert (F : 2 < 4) by lia.
  destruct (addBatchToContext_app
              (Shared.new_client [])
              [entry "user" "one"] [entry "assistant" "two"] 4 L F)
    as (o & s_ab & o_a & s_a & Rab & Ra & M).
  cbv in Rab. injection Rab as <- <-.
  cbv in Ra. injection Ra as <- <-.
  destruct M as (s_b & Rb & B).
  eexists _, _, s_b. split; [reflexivity|]. split; [reflexivity|].
  split; [exact Rb | exact B].
Defined.

(** X3: what a batch does on every array.  On an array that is not the
    buffer's own it ends: the buffer is extended by exactly the valid
    entries at the head of the array, up to the first entry that is not
    valid; it returns normally exactly when every entry is valid, and
    throws the rejection of the first invalid entry otherwise.  On the
    buffer's own array it returns at once when the buffer is empty, throws
    in the same way when the buffer holds an entry that is not valid, and
    does not return when the buffer is not empty and all valid. *)
Theorem addBatchToContext_leading_valid (s : Shared.state) :
  Shared.context (snd s) < List.length (fst s) ->
  (forall contextEntries entries fuel,
      Live.elements contextEntries s = Some entries ->
      Live.is_buffer contextEntries s = false ->
      List.length (leading_valid entries) < fuel ->
      exists s',
        Live.addBatchToContext fuel contextEntries s
        = Some (batch_outcome entries, s')
        /\ Live.buffer s' = Live.buffer s ++ leading_valid entries
        /\ snd s' = snd s
        /\ (batch_outcome entries = Client.Returned tt
            <-> forallb valid_entry entries = true))
  /\ (forall fuel,
         List.length (leading_valid (Live.buffer s)) < fuel ->
         if forallb valid_entry (Live.buffer s) then
           match Live.buffer s with
           | [] =>
               Live.addBatchToContext
                 fuel (Live.Held (Shared.context (snd s))) s
               = Some (Client.Returned tt, s)
           | _ :: _ =>
               forall any,
                 Live.addBatchToContext
                   any (Live.Held (Shared.context (snd s))) s
                 = None
           end
         else
           exists s',
             Live.addBatchToContext fuel (Live.Held (Shared.context (snd s))) s
             = Some (batch_outcome (Live.buffer s), s')
             /\ Live.buffer s'
                = Live.buffer s ++ leading_valid (Live.buffer s)
             /\ snd s' = snd s).
Proof.
  destruct s as [h this]. cbn [fst snd]. intros L.
  unfold Live.buffer. cbn [fst snd]. split.
  - intros contextEntries entries fuel E Nb F.
    destruct contextEntries as [v|r]; cbn [Live.elements Live.is_buffer fst snd] in E, Nb.
    + destruct v as [| | | | |items|]; try discriminate.
      injection E as ->.
      destruct (live_given_array fuel h this entries L F) as (h' & R & C & _).
      exists (h', this). split; [exact R|]. cbn [fst snd].
      split; [exact C|]. split; [reflexivity|]. apply batch_outcome_returned.
    + injection E as <-. apply Nat.eqb_neq in Nb.
      cbn [Live.addBatchToContext].
      destruct (live_for_of_fixed fuel h this r L Nb F) as (h' & R & C & _).
      exists (h', this). split; [exact R|]. cbn [fst snd].
      split; [exact C|]. split; [reflexivity|]. apply batch_outcome_returned.
  - intros fuel F. cbn [Live.addBatchToContext].
    destruct (forallb valid_entry (Shared.deref h (Shared.context this))) eqn:V.
    + destruct (Shared.deref h (Shared.context this)) as [|x b] eqn:D.
      * destruct fuel as [|fuel]; [cbn in F; lia|].
        cbn [Live.for_of fst]. rewrite D. reflexivity.
      * intros any. apply live_for_of_diverges; [exact L| |].
        -- rewrite D. cbn. lia.
        -- rewrite D. exact V.
    + destruct (batch_first_invalid _ V) as (bad & post & E & B & O).
      rewrite O.
      destruct (live_for_of_stops
                  fuel 0 h this (Shared.context this)
                  (leading_valid (Shared.deref h (Shared.context this)))
                  bad post []) as (h' & R & C & _); try assumption.
      * rewrite app_nil_r. exact E.
      * lia.
      * apply leading_valid_all.
      * lia.
      * exists (h', this). split; [exact R|]. cbn [fst snd].
        split; [exact C | reflexivity].
Qed.

Lemma addBatchToContext_leading_valid_witness :
  let s := snd (Shared.addToContext (entry "user" "Hello") (Shared.new_client [])) in
  Live.addBatchToContext 1000 (Live.Held (fst (Shared.getContext s))) s = None
  /\ exists s',
      Live.addBatchToContext
        3 (Live.Given (VArray [entry "assistant" "Hi there!"; VNull;
                               entry "user" "not reached"])) s
      = Some (Client.Threw TypeError_, s')
      /\ Live.buffer s' = [entry "user" "Hello"; entry "assistant" "Hi there!"].
Proof.
  cbv zeta.
  assert (L : 0 < 1) by lia.
  pose proof (addBatchToContext_leading_valid
                ([[entry "user" "Hello"]], {| Shared.context := 0 |}) L)
    as [G O].
  split.
  - assert (F : 1 < 2) by lia. exact (O 2 F 1000).
  - assert (F : 1 < 3) by lia.
    destruct (G (Live.Given (VArray [entry "assistant" "Hi there!"; VNull;
                                     entry "user" "not reached"]))
                [entry "assistant" "Hi there!"; VNull; entry "user" "not reached"]
                3 eq_refl eq_refl F) as (s' & R & B & _).
    exists s'. split; [exact R | exact B].
Defined.

(** A vendor message that has no string conversion: the [TypeError] leaves
    [handleError] in place of the fault of the class. *)
Example handleError_conversion_throws :
  Client.handleError
    {| Axios.response :=
         Some {| Axios.status := 500;
                 Axios.data :=
                   VObject [(txt "error",
                             VObject [(txt "message",
                                       VObject [(txt "toString", VNull)])])] |};
       Axios.request := true;
       Axios.message := txt "Request failed with status code 500" |}
  = TypeError_.
Proof. reflexivity. Qed.

(** ** The error classifier, read backwards *)

(** X6: [handleError] throws an instance of a class of [errors.ts]
    whenever the message it hands to the constructor has a string
    conversion (always for a string, a number, a boolean, and when the
    transport's message is used), and then the class tells the situation:
    the base class [OpenAIError] exactly when there was no response,
    [ValidationError] exactly for status 400, [AuthenticationError] exactly
    for 401, [RateLimitError] exactly for 429, [APIError] exactly for a
    response with any other status; the status code is present exactly
    when there was a response.  When the vendor's message is truthy and has
    no string conversion, the [TypeError] of the conversion is thrown
    instead. *)
Theorem handleError_class_tells_situation (error : Axios.AxiosError) :
  if message_converts error then
    exists i,
      Client.handleError error = Thrown i
      /\ Errors.statusCode i = option_map Axios.status (Axios.response error)
      /\ (Errors.class i = OpenAIError <-> Axios.response error = None)
      /\ (Errors.class i = ValidationError <-> Errors.statusCode i = Some 400%Z)
      /\ (Errors.class i = AuthenticationError
          <-> Errors.statusCode i = Some 401%Z)
      /\ (Errors.class i = RateLimitError <-> Errors.statusCode i = Some 429%Z)
      /\ (Errors.class i = APIError
          <-> exists s, Errors.statusCode i = Some s
                        /\ s <> 400%Z /\ s <> 401%Z /\ s <> 429%Z)
  else Client.handleError error = TypeError_.
Proof.
  unfold message_converts, handed_message, vendor_message.
  destruct error as [[[status body]|] request message];
    unfold Client.handleError;
    cbn [Axios.response Axios.status Axios.data Axios.request Axios.message].
  - destruct (Conversion.ToString _) as [text|].
    + destruct (Z.eqb_spec status 400) as [->|N400];
        [|destruct (Z.eqb_spec status 401) as [->|N401];
          [|destruct (Z.eqb_spec status 429) as [->|N429]]];
        eexists; (split; [reflexivity|]);
        cbn [Errors.class Errors.statusCode option_map Axios.status];
        (split; [reflexivity|]); repeat split;
        try discriminate; try reflexivity;
        try (intros E; injection E; intros; congruence);
        try (intros (s & E & A & B & C); injection E; intros; congruence).
      intros _. exists status. auto.
    + destruct (Z.eqb status 400); [reflexivity|].
      destruct (Z.eqb status 401); [reflexivity|].
      destruct (Z.eqb status 429); reflexivity.
  - destruct request; eexists; (split; [reflexivity|]);
      cbn [Errors.class Errors.statusCode option_map Axios.response];
      (split; [reflexivity|]); repeat split;
      try discriminate; try reflexivity;
      try (intros (s & E & _); discriminate).
Qed.

(** X7: a body that is not the vendor's JSON object (text or HTML from a
    proxy, [null], an array, a number) or whose [error] is not an object (a
    bare string, [null], absent) gives a fault with the transport's message;
    the body is still carried as [data]. *)
Theorem handleError_falls_back_on_foreign_body
        (error : Axios.AxiosError) (r : Axios.AxiosResponse) :
  Axios.response error = Some r ->
  is_object (Axios.data r) = false
  \/ is_object (opt_get (Axios.data r) (txt "error")) = false ->
  exists i,
    Client.handleError error = Thrown i
    /\ Errors.message i = VString (Axios.message error)
    /\ Errors.data i = Axios.data r.
Proof.
  intros Hr Hb.
  assert (V : vendor_message (Axios.data r) = VUndefined).
  { unfold vendor_message. destruct Hb as [Hb|Hb].
    - destruct (Axios.data r); try reflexivity. discriminate.
    - destruct (opt_get (Axios.data r) (txt "error")); try reflexivity.
      discriminate. }
  unfold Client.handleError. rewrite Hr.
  fold (vendor_message (Axios.data r)). rewrite V.
  cbn [truthy Conversion.ToString].
  destruct (Z.eqb (Axios.status r) 400);
    [|destruct (Z.eqb (Axios.status r) 401);
      [|destruct (Z.eqb (Axios.status r) 429)]];
    eexists; repeat split.
Qed.

Lemma handleError_falls_back_on_foreign_body_witness :
  exists i,
    Client.handleError
      {| Axios.response :=
           Some {| Axios.status := 502;
                   Axios.data := VString (txt "<html>Bad Gateway</html>") |};
         Axios.request := true;
         Axios.message := txt "Request failed with status code 502" |}
    = Thrown i
    /\ Errors.message i = VString (txt "Request failed with status code 502")
    /\ Errors.data i = VString (txt "<html>Bad Gateway</html>").
Proof.
  exact (handleError_falls_back_on_foreign_body
           {| Axios.response :=
                Some {| Axios.status := 502;
                        Axios.data := VString (txt "<html>Bad Gateway</html>") |};
              Axios.request := true;
              Axios.message := txt "Request failed with status code 502" |}
           {| Axios.status := 502;
              Axios.data := VString (txt "<html>Bad Gateway</html>") |}
           eq_refl (or_introl eq_refl)).
Defined.

(** ** The streaming decoder, further *)

Section DecoderMore.

Import Stream.

Lemma resume_ends_completed (source : list (list byte)) :
  forall buffer lines p g',
    resume source buffer lines = (p, g') ->
    (forall v, p <> Yield v) ->
    completed g' = true.
Proof.
  induction source as [|chunk source IH]; intros buffer lines p g' E N;
    rewrite resume_eq in E; cbv zeta in E;
    destruct (scan lines) as [parsed rest| |text|];
    try (injection E as <- <-; reflexivity);
    try (injection E as <- <-; exfalso; exact (N parsed eq_refl)).
  exact (IH _ _ _ _ E N).
Qed.

Lemma no_line_feed_no_newline (s : jsstring) :
  forallb not_line_feed s = true <-> no_newline s.
Proof.
  unfold no_newline, not_line_feed. induction s as [|c s IH]; cbn [forallb split_nl].
  - tauto.
  - destruct (N.eqb c 10) eqn:Ec; cbn [negb andb].
    + split; [discriminate|]. intros E. injection E as E _. discriminate.
    + rewrite IH. pose proof (split_nl_nonempty s) as Hne.
      destruct (split_nl s) as [|h t]; [contradiction|].
      split.
      * intros E. injection E as -> ->. reflexivity.
      * intros E. injection E as -> ->. reflexivity.
Qed.

Lemma stream_lines_tail (chunks : list (list byte)) (tail : list byte) :
  forallb not_line_feed (Utf8.toString tail) = true ->
  stream_lines (chunks ++ [tail]) = stream_lines chunks.
Proof.
  intros H. unfold stream_lines.
  rewrite map_app, concat_app. cbn [map List.concat]. rewrite app_nil_r.
  rewrite lines_app.
  set (T := List.concat (map Utf8.toString chunks)).
  assert (F : no_newline (last (split_nl T) [] ++ Utf8.toString tail)).
  { apply no_line_feed_no_newline. rewrite forallb_app, H, andb_true_r.
    apply no_line_feed_no_newline, fragment_no_newline. }
  rewrite F. cbn [removelast]. apply app_nil_r.
Qed.

Lemma events_filter (l : list jsstring) :
  events l = events (filter data_line l).
Proof.
  induction l as [|line l IH]; [reflexivity|].
  cbn [events filter]. destruct (data_line line) eqn:D; [|exact IH].
  cbn [events]. rewrite D, IH. reflexivity.
Qed.

Lemma events_trim (l1 : list jsstring) :
  forall l2, map trim l1 = map trim l2 -> events l1 = events l2.
Proof.
  induction l1 as [|a l1 IH]; intros [|b l2] E; try discriminate; [reflexivity|].
  cbn [map] in E. injection E as Et El.
  cbn [events]. unfold data_line, payload. rewrite Et, (IH l2 El). reflexivity.
Qed.

End DecoderMore.

(** X8: the sequence cannot be restarted: once a pull has reported the end
    or has rejected, every later pull reports the end, whatever lines,
    buffered text and chunks were left. *)
Theorem decoder_not_restartable
        (g g' : Stream.generator) (p : Stream.pull) (n : nat) :
  Stream.next g = (p, g') ->
  p = Stream.Done \/ (exists f, p = Stream.Raise f) ->
  Stream.pulls n g' = repeat Stream.Done n.
Proof.
  intros E H. apply pulls_completed.
  unfold Stream.next in E. destruct (Stream.completed g) eqn:C.
  - injection E as _ <-. exact C.
  - apply (resume_ends_completed _ _ _ _ _ E).
    intros v Y. destruct H as [H|[f H]]; congruence.
Qed.

Lemma decoder_not_restartable_witness :
  let g := Stream.streamAsyncIterable
             [Utf8.wire "data: oops|data: {'a':1}|"; Utf8.wire "data: {'b':2}|"] in
  fst (Stream.next g) = Stream.Raise (SyntaxError_ (txt "oops"))
  /\ Stream.pulls 3 (snd (Stream.next g))
     = [Stream.Done; Stream.Done; Stream.Done].
Proof.
  cbv zeta. split; [reflexivity|].
  exact (decoder_not_restartable
           (Stream.streamAsyncIterable
              [Utf8.wire "data: oops|data: {'a':1}|"; Utf8.wire "data: {'b':2}|"])
           _ (Stream.Raise (SyntaxError_ (txt "oops"))) 3 eq_refl
           (or_intror (ex_intro _ (SyntaxError_ (txt "oops")) eq_refl))).
Defined.

(** X9: text after the last line feed is never decoded: a final chunk
    whose text has no line feed changes nothing, so a last data line that
    the server does not terminate is lost without a fault. *)
Theorem unterminated_tail_is_dropped
        (chunks : list (list byte)) (tail : list byte) (n : nat) :
  forallb not_line_feed (Utf8.toString tail) = true ->
  Stream.pulls n (Stream.streamAsyncIterable (chunks ++ [tail]))
  = Stream.pulls n (Stream.streamAsyncIterable chunks).
Proof.
  intros H. rewrite !pulls_stream, (stream_lines_tail chunks tail H).
  reflexivity.
Qed.

Lemma unterminated_tail_is_dropped_witness :
  Stream.pulls 3 (Stream.streamAsyncIterable
                    [Utf8.wire "data: {'a':1}|"; Utf8.wire "data: {'b':2}"])
  = [Stream.Yield (one_field "a" 1); Stream.Done; Stream.Done].
Proof.
  exact (unterminated_tail_is_dropped
           [Utf8.wire "data: {'a':1}|"] (Utf8.wire "data: {'b':2}") 3 eq_refl).
Defined.

(** X10: lines that do not start with [data:] after trimming (blank
    lines, comments, [event:] and [id:] fields) have no effect: two streams
    with the same data lines give the same pulls. *)
Theorem non_data_lines_are_ignored
        (chunks1 chunks2 : list (list byte)) (n : nat) :
  filter data_line (stream_lines chunks1)
  = filter data_line (stream_lines chunks2) ->
  Stream.pulls n (Stream.streamAsyncIterable chunks1)
  = Stream.pulls n (Stream.streamAsyncIterable chunks2).
Proof.
  intros H. rewrite !pulls_stream.
  rewrite (events_filter (stream_lines chunks1)), H, <- events_filter.
  reflexivity.
Qed.

Lemma non_data_lines_are_ignored_witness :
  Stream.pulls 3 (Stream.streamAsyncIterable
                    [Utf8.wire ": keep-alive||event: delta|data: {'a':1}||id: 7|data: [DONE]|"])
  = Stream.pulls 3 (Stream.streamAsyncIterable
                      [Utf8.wire "data: {'a':1}|data: [DONE]|"]).
Proof.
  exact (non_data_lines_are_ignored
           [Utf8.wire ": keep-alive||event: delta|data: {'a':1}||id: 7|data: [DONE]|"]
           [Utf8.wire "data: {'a':1}|data: [DONE]|"] 3 eq_refl).
Defined.

(** X11: only the trimmed lines matter: two streams whose lines agree
    after trimming give the same pulls, so a stream with CR LF line ends or
    with indented lines is decoded like the plain one. *)
Theorem line_whitespace_is_irrelevant
        (chunks1 chunks2 : list (list byte)) (n : nat) :
  map trim (stream_lines chunks1) = map trim (stream_lines chunks2) ->
  Stream.pulls n (Stream.streamAsyncIterable chunks1)
  = Stream.pulls n (Stream.streamAsyncIterable chunks2).
Proof.
  intros H. rewrite !pulls_stream, (events_trim _ _ H). reflexivity.
Qed.

Lemma line_whitespace_is_irrelevant_witness :
  Stream.pulls 3 (Stream.streamAsyncIterable
                    [Utf8.wire "data: {'a':1}" ++ [x0d; x0a]
                     ++ Utf8.wire "  data: [DONE]" ++ [x0d; x0a]])
  = Stream.pulls 3 (Stream.streamAsyncIterable
                      [Utf8.wire "data: {'a':1}|data: [DONE]|"]).
Proof.
  exact (line_whitespace_is_irrelevant
           [Utf8.wire "data: {'a':1}" ++ [x0d; x0a]
            ++ Utf8.wire "  data: [DONE]" ++ [x0d; x0a]]
           [Utf8.wire "data: {'a':1}|data: [DONE]|"] 3 eq_refl).
Defined.

(** X12: any two ways of cutting the same bytes into chunks give the same
    pulls, provided no cut falls inside a multi-byte character; empty
    chunks and cuts in the middle of a line are covered. *)
Theorem rechunking_at_character_boundaries
        (chunks1 chunks2 : list (list byte)) (n : nat) :
  List.concat chunks1 = List.concat chunks2 ->
  forallb whole chunks1 = true ->
  forallb whole chunks2 = true ->
  Stream.pulls n (Stream.streamAsyncIterable chunks1)
  = Stream.pulls n (Stream.streamAsyncIterable chunks2).
Proof.
  intros E W1 W2.
  rewrite (pulls_whole_chunks chunks1 n W1), (pulls_whole_chunks chunks2 n W2), E.
  reflexivity.
Qed.

Lemma rechunking_at_character_boundaries_witness :
  Stream.pulls 2 (Stream.streamAsyncIterable
                    [Utf8.wire "data: {'a'"; []; Utf8.wire ":1}|"])
  = Stream.pulls 2 (Stream.streamAsyncIterable
                      [Utf8.wire "da"; Utf8.wire "ta: {'a':1}|"]).
Proof.
  exact (rechunking_at_character_boundaries
           [Utf8.wire "data: {'a'"; []; Utf8.wire ":1}|"]
           [Utf8.wire "da"; Utf8.wire "ta: {'a':1}|"] 2 eq_refl eq_refl eq_refl).
Defined.

(** ** The methods that call the transport *)

Section EndpointsMore.

Import Client Endpoints.

Variable send : Call -> value + Axios.AxiosError.
Variable send_stream : Call -> list (list byte) + Axios.AxiosError.
Variable send_buffer : Call -> list byte + Axios.AxiosError.

Lemma request_frame (method endpoint : jsstring) (data : body)
      (this : OpenAIClient) :
  snd (request send method endpoint data this) = this.
Proof. unfold request. destruct (send _); reflexivity. Qed.

Lemma request_settles (method endpoint : jsstring) (data : body)
      (this : OpenAIClient) :
  fst (request send method endpoint data this)
  = match send {| method := method; url := endpoint; data := data;
                  responseType := AsJson |} with
    | inl response_data => Fulfilled response_data
    | inr error => Rejected (handleError error)
    end.
Proof. unfold request. destruct (send _); reflexivity. Qed.

End EndpointsMore.

(** X13: a failure of the transport is classified by [handleError] on the
    plain path only.  With [stream] set, [createCompletion] and
    [createChatCompletion] post without the [try] of [request], and the
    transport's error reaches the caller as it is, no instance of a class
    of [errors.ts]; without [stream] the same error is thrown as
    [handleError]'s instance. *)
Theorem streaming_failures_are_not_classified
        (send : Endpoints.Call -> value + Axios.AxiosError)
        (send_stream : Endpoints.Call -> list (list byte) + Axios.AxiosError)
        (error : Axios.AxiosError) (this : Client.OpenAIClient) :
  (forall call, send call = inr error) ->
  (forall call, send_stream call = inr error) ->
  (forall options,
      Endpoints.createCompletion send send_stream options this
      = (if truthy (find_prop options (txt "stream"))
         then Endpoints.RejectedRaw error
         else Endpoints.Rejected (Client.handleError error), this))
  /\ (forall options,
         Endpoints.createChatCompletion send send_stream options this
         = (if Client.stream options
            then Endpoints.RejectedRaw error
            else Endpoints.Rejected (Client.handleError error), this)).
Proof.
  intros Hs Hq. split; intros options.
  - unfold Endpoints.createCompletion, Endpoints.request.
    rewrite Hs, Hq. destruct (truthy _); reflexivity.
  - unfold Endpoints.createChatCompletion, Endpoints.request.
    rewrite Hs, Hq. destruct (Client.stream options); reflexivity.
Qed.

Lemma streaming_failures_are_not_classified_witness :
  let unauthorized :=
    {| Axios.response :=
         Some {| Axios.status := 401;
                 Axios.data :=
                   VObject [(txt "error",
                             VObject [(txt "message",
                                       VString (txt "Unauthorized"))])] |};
       Axios.request := true;
       Axios.message := txt "Request failed with status code 401" |} in
  let prompt := (txt "prompt", VString (txt "Hello, world!")) in
  Endpoints.createCompletion
    (fun _ => inr unauthorized) (fun _ => inr unauthorized)
    [prompt; (txt "stream", VBool true)] Client.new_client
  = (Endpoints.RejectedRaw unauthorized, Client.new_client)
  /\ exists i,
      Endpoints.createCompletion
        (fun _ => inr unauthorized) (fun _ => inr unauthorized)
        [prompt] Client.new_client
      = (Endpoints.Rejected (Thrown i), Client.new_client)
      /\ Errors.class i = AuthenticationError.
Proof.
  cbv zeta. split.
  - exact (proj1 (streaming_failures_are_not_classified
                    (fun _ => inr _) (fun _ => inr _) _ Client.new_client
                    (fun _ => eq_refl) (fun _ => eq_refl))
                 [(txt "prompt", VString (txt "Hello, world!"));
                  (txt "stream", VBool true)]).
  - eexists. split.
    + exact (proj1 (streaming_failures_are_not_classified
                      (fun _ => inr _) (fun _ => inr _) _ Client.new_client
                      (fun _ => eq_refl) (fun _ => eq_refl))
                   [(txt "prompt", VString (txt "Hello, world!"))]).
    + reflexivity.
Defined.

(** X14: no method that calls the transport writes the buffer, whatever
    the transport answers, and only [createChatCompletion] reads it: the
    other methods settle the same way on any two clients. *)
Theorem endpoints_leave_context
        (send : Endpoints.Call -> value + Axios.AxiosError)
        (send_stream : Endpoints.Call -> list (list byte) + Axios.AxiosError)
        (send_buffer : Endpoints.Call -> list byte + Axios.AxiosError)
        (this other : Client.OpenAIClient) :
  (forall method endpoint data,
      snd (Endpoints.request send method endpoint data this) = this
      /\ fst (Endpoints.request send method endpoint data this)
         = fst (Endpoints.request send method endpoint data other))
  /\ (forall options,
         snd (Endpoints.createCompletion send send_stream options this) = this
         /\ fst (Endpoints.createCompletion send send_stream options this)
            = fst (Endpoints.createCompletion send send_stream options other))
  /\ (forall fileId,
         snd (Endpoints.retrieveFileContent send_buffer fileId this) = this
         /\ fst (Endpoints.retrieveFileContent send_buffer fileId this)
            = fst (Endpoints.retrieveFileContent send_buffer fileId other))
  /\ (forall options,
         snd (Endpoints.createChatCompletion send send_stream options this)
         = this).
Proof.
  split; [|split; [|split]].
  - intros method endpoint data. split; [apply request_frame|].
    rewrite !request_settles. reflexivity.
  - intros options. unfold Endpoints.createCompletion, Endpoints.request.
    destruct (truthy _); [destruct (send_stream _) | destruct (send _)];
      split; reflexivity.
  - intros fileId. unfold Endpoints.retrieveFileContent.
    destruct (send_buffer _); split; reflexivity.
  - intros options. unfold Endpoints.createChatCompletion, Endpoints.request.
    destruct (Client.stream options);
      [destruct (send_stream _) | destruct (send _)]; reflexivity.
Qed.

(** X15: a streaming chat completion, end to end: the call that is posted
    carries the payload built from the buffer and the caller's messages,
    and when the transport answers with a stream the method resolves to the
    decoder on that stream, whose pulls are the events of the stream's
    lines, then the end for ever. *)
Theorem streaming_chat_end_to_end
        (send : Endpoints.Call -> value + Axios.AxiosError)
        (send_stream : Endpoints.Call -> list (list byte) + Axios.AxiosError)
        (options : Client.CreateChatCompletionOptions)
        (this : Client.OpenAIClient) (post : Client.Post)
        (chunks : list (list byte)) :
  Client.stream options = true ->
  Client.createChatCompletion options this = (Client.Returned post, this) ->
  send_stream {| Endpoints.method := txt "POST";
                 Endpoints.url := Client.url post;
                 Endpoints.data := Endpoints.ChatBody (Client.payload post);
                 Endpoints.responseType := Endpoints.AsStream |}
  = inl chunks ->
  exists iterable,
    Endpoints.createChatCompletion send send_stream options this
    = (Endpoints.Fulfilled (Endpoints.Chunks iterable), this)
    /\ forall n,
      Stream.pulls n iterable
      = firstn n (events (stream_lines chunks) ++ repeat Stream.Done n).
Proof.
  intros Hs Hp Hq.
  unfold Client.createChatCompletion, Client.bind, Client.read_context,
    Client.ret in Hp.
  injection Hp as <-.
  cbn [Client.url Client.payload] in Hq.
  exists (Stream.streamAsyncIterable chunks). split.
  - unfold Endpoints.createChatCompletion. rewrite Hs. rewrite Hs in Hq.
    rewrite Hq. reflexivity.
  - intros n. apply pulls_stream.
Qed.

Lemma streaming_chat_end_to_end_witness :
  let options := {| Client.messages := [entry "user" "Hello"];
                    Client.stream := true;
                    Client.others := [(txt "model", VString (txt "gpt-3.5-turbo"))] |} in
  let this := {| Client.context := [entry "system" "Be brief."] |} in
  let answer := fun call : Endpoints.Call =>
                  match Endpoints.data call with
                  | Endpoints.ChatBody payload =>
                      if Nat.eqb (List.length (Client.messages payload)) 2
                      then inl [Utf8.wire "data: {'a':1}||data: [DONE]|"]
                      else inl []
                  | _ => inl []
                  end in
  exists iterable,
    Endpoints.createChatCompletion (fun _ => inl VNull) answer options this
    = (Endpoints.Fulfilled (Endpoints.Chunks iterable), this)
    /\ Stream.pulls 3 iterable
       = [Stream.Yield (one_field "a" 1); Stream.Done; Stream.Done].
Proof.
  cbv zeta.
  destruct (streaming_chat_end_to_end
              (fun _ => inl VNull)
              (fun call : Endpoints.Call =>
                 match Endpoints.data call with
                 | Endpoints.ChatBody payload =>
                     if Nat.eqb (List.length (Client.messages payload)) 2
                     then inl [Utf8.wire "data: {'a':1}||data: [DONE]|"]
                     else inl []
                 | _ => inl []
                 end)
              {| Client.messages := [entry "user" "Hello"];
                 Client.stream := true;
                 Client.others := [(txt "model", VString (txt "gpt-3.5-turbo"))] |}
              {| Client.context := [entry "system" "Be brief."] |}
              _ [Utf8.wire "data: {'a':1}||data: [DONE]|"]
              eq_refl eq_refl eq_refl) as (iterable & E & P).
  exists iterable. split; [exact E | exact (P 3)].
Defined.

(** ** Objects: defining and reading properties *)

Section ObjectsMore.

Lemma jsstring_eqb_refl (k : jsstring) : JSString.eqb k k = true.
Proof. apply jsstring_eqb_spec. reflexivity. Qed.

Lemma jsstring_eqb_false (a b : jsstring) :
  JSString.eqb a b = false <-> a <> b.
Proof.
  split.
  - intros E H. apply jsstring_eqb_spec in H. congruence.
  - intros H. destruct (JSString.eqb a b) eqn:E; [|reflexivity].
    apply jsstring_eqb_spec in E. contradiction.
Qed.

Lemma find_set_same (props : list (jsstring * value)) (k : jsstring) (v : value) :
  find_prop (set_prop props k v) k = v.
Proof.
  induction props as [|[k' v'] props IH]; cbn [set_prop find_prop].
  - rewrite jsstring_eqb_refl. reflexivity.
  - destruct (JSString.eqb k k') eqn:E; cbn [find_prop]; rewrite E;
      [reflexivity | exact IH].
Qed.

Lemma find_set_other (props : list (jsstring * value)) (k k' : jsstring)
      (v : value) :
  k' <> k -> find_prop (set_prop props k v) k' = find_prop props k'.
Proof.
  intros N. induction props as [|[k'' v''] props IH]; cbn [set_prop find_prop].
  - apply jsstring_eqb_false in N. rewrite N. reflexivity.
  - destruct (JSString.eqb k k'') eqn:E; cbn [find_prop].
    + apply jsstring_eqb_spec in E. subst k''.
      apply jsstring_eqb_false in N. rewrite N. reflexivity.
    + rewrite IH. reflexivity.
Qed.

Lemma existsb_insert_index (P : jsstring -> bool) (n : N)
      (p : jsstring * value) (l : list (N * (jsstring * value))) :
  existsb P (map fst (map snd (Objects.insert_index n p l)))
  = P (fst p) || existsb P (map fst (map snd l)).
Proof.
  induction l as [|[m q] l IH]; cbn [Objects.insert_index]; [reflexivity|].
  destruct (N.ltb n m); cbn [map existsb snd fst]; [reflexivity|].
  rewrite IH. rewrite !orb_assoc. f_equal. apply orb_comm.
Qed.

Lemma existsb_own_entries (P : jsstring -> bool)
      (props : list (jsstring * value)) :
  existsb P (map fst (Objects.own_entries props)) = existsb P (map fst props).
Proof.
  unfold Objects.own_entries. rewrite map_app, existsb_app.
  induction props as [|[k v] props IH]; [reflexivity|].
  cbn [Objects.index_entries filter map existsb fst].
  unfold Objects.named at 1. cbn [fst].
  destruct (Objects.array_index k) as [n|].
  - rewrite existsb_insert_index. cbn [fst].
    rewrite <- orb_assoc, IH. reflexivity.
  - cbn [map existsb fst]. rewrite orb_assoc, (orb_comm _ (P k)), <- orb_assoc.
    rewrite IH. reflexivity.
Qed.

Lemma find_fold_set (source : list (jsstring * value)) (k : jsstring)
      (entries : list (jsstring * value)) :
  forall target,
    find_prop (fold_left
                 (fun acc entry =>
                    set_prop acc (fst entry) (find_prop source (fst entry)))
                 entries target) k
    = if existsb (JSString.eqb k) (map fst entries)
      then find_prop source k else find_prop target k.
Proof.
  induction entries as [|[k' v'] entries IH]; intros target; [reflexivity|].
  cbn [fold_left map existsb fst]. rewrite IH.
  destruct (existsb (JSString.eqb k) (map fst entries));
    [rewrite orb_true_r; reflexivity|].
  rewrite orb_false_r.
  destruct (JSString.eqb k k') eqn:E.
  - apply jsstring_eqb_spec in E. subst k'. apply find_set_same.
  - apply find_set_other. apply jsstring_eqb_false, E.
Qed.

Lemma find_spread (target source : list (jsstring * value)) (k : jsstring) :
  find_prop (Config.spread_into target source) k
  = if Config.has_prop source k then find_prop source k
    else find_prop target k.
Proof.
  unfold Config.spread_into, Config.has_prop.
  rewrite find_fold_set, existsb_own_entries. reflexivity.
Qed.

End ObjectsMore.

(** ** The constructor's transport configuration *)

(** X16: how the constructor settles the transport configuration.  When
    [proxyConfig] is set, [proxy] is [false] and [httpsAgent] is the agent,
    whatever [proxy] and [axiosConfig] say.  Otherwise every key of the
    caller's [axiosConfig] wins over the constructor's value (with
    [proxyConfig] set, every key but those two): custom [headers] replace
    the default headers as a whole, [Authorization] included.  A key that
    the caller's [axiosConfig] does not have keeps the constructor's value:
    the bearer header, and the base url with its default when the option is
    absent or empty. *)
Theorem constructor_config_precedence
        (apiKey : jsstring) (options : Config.OpenAIClientOptions) :
  let config := Config.constructor_axiosConfig apiKey options in
  (truthy (Config.proxyConfig options) = true ->
   find_prop config (txt "proxy") = VBool false
   /\ find_prop config (txt "httpsAgent") = Config.proxyConfig options)
  /\ (forall custom k,
         Config.axiosConfig options = Some custom ->
         Config.has_prop custom k = true ->
         truthy (Config.proxyConfig options) = false
         \/ (k <> txt "proxy" /\ k <> txt "httpsAgent") ->
         find_prop config k = find_prop custom k)
  /\ ((forall custom, Config.axiosConfig options = Some custom ->
                      Config.has_prop custom (txt "headers") = false) ->
      find_prop config (txt "headers")
      = VObject [(txt "Authorization", VString (txt "Bearer " ++ apiKey));
                 (txt "Content-Type", VString (txt "application/json"))])
  /\ ((forall custom, Config.axiosConfig options = Some custom ->
                      Config.has_prop custom (txt "baseURL") = false) ->
      find_prop config (txt "baseURL")
      = if truthy (Config.baseURL options) then Config.baseURL options
        else VString (txt "https://api.openai.com/v1")).
Proof.
  cbv zeta. unfold Config.constructor_axiosConfig.
  set (literal := [(txt "baseURL", Config.client_baseURL options);
                   (txt "headers", Config.default_headers apiKey);
                   (txt "timeout", Config.or_else (Config.timeout options) Config.zero);
                   (txt "proxy", Config.or_else (Config.proxy options) (VBool false))]).
  set (merged := match Config.axiosConfig options with
                 | Some custom => Config.spread_into literal custom
                 | None => literal
                 end).
  assert (K : forall k, k <> txt "proxy" -> k <> txt "httpsAgent" ->
                        find_prop
                          (if truthy (Config.proxyConfig options)
                           then set_prop (set_prop merged (txt "proxy") (VBool false))
                                         (txt "httpsAgent") (Config.proxyConfig options)
                           else merged) k
                        = find_prop merged k).
  { intros k N1 N2. destruct (truthy (Config.proxyConfig options)); [|reflexivity].
    rewrite find_set_other by exact N2. apply find_set_other, N1. }
  assert (D : forall k, (forall custom, Config.axiosConfig options = Some custom ->
                                        Config.has_prop custom k = false) ->
                        find_prop merged k = find_prop literal k).
  { intros k H. unfold merged. destruct (Config.axiosConfig options) as [custom|];
      [|reflexivity].
    rewrite find_spread, (H custom eq_refl). reflexivity. }
  split; [|split; [|split]].
  - intros T. rewrite T. split.
    + rewrite find_set_other by discriminate. apply find_set_same.
    + apply find_set_same.
  - intros custom k Hc Hk Hp.
    assert (M : find_prop merged k = find_prop custom k).
    { unfold merged. rewrite Hc, find_spread, Hk. reflexivity. }
    destruct Hp as [F|[N1 N2]].
    + rewrite F. exact M.
    + rewrite K by assumption. exact M.
  - intros H. rewrite K by discriminate. rewrite (D _ H). reflexivity.
  - intros H. rewrite K by discriminate. rewrite (D _ H). reflexivity.
Qed.

Lemma constructor_config_precedence_witness :
  let options :=
    {| Config.baseURL := VString [];
       Config.timeout := VUndefined;
       Config.proxy := VObject [(txt "host", VString (txt "10.0.0.1"))];
       Config.proxyConfig := VObject [(txt "agent", VString (txt "https-proxy"))];
       Config.axiosConfig :=
         Some [(txt "headers",
                VObject [(txt "X-Trace", VString (txt "1"))]);
               (txt "proxy", VObject [(txt "host", VString (txt "10.0.0.2"))])] |} in
  let config := Config.constructor_axiosConfig (txt "sk-test") options in
  find_prop config (txt "proxy") = VBool false
  /\ find_prop config (txt "httpsAgent")
     = VObject [(txt "agent", VString (txt "https-proxy"))]
  /\ find_prop config (txt "headers")
     = VObject [(txt "X-Trace", VString (txt "1"))]
  /\ find_prop config (txt "baseURL")
     = VString (txt "https://api.openai.com/v1").
Proof.
  cbv zeta.
  pose proof (constructor_config_precedence
                (txt "sk-test")
                {| Config.baseURL := VString [];
                   Config.timeout := VUndefined;
                   Config.proxy := VObject [(txt "host", VString (txt "10.0.0.1"))];
                   Config.proxyConfig :=
                     VObject [(txt "agent", VString (txt "https-proxy"))];
                   Config.axiosConfig :=
                     Some [(txt "headers",
                            VObject [(txt "X-Trace", VString (txt "1"))]);
                           (txt "proxy",
                            VObject [(txt "host", VString (txt "10.0.0.2"))])] |})
    as (P & C & _ & B).
  destruct (P eq_refl) as [P1 P2].
  split; [exact P1|]. split; [exact P2|]. split.
  - assert (N1 : txt "headers" <> txt "proxy") by discriminate.
    assert (N2 : txt "headers" <> txt "httpsAgent") by discriminate.
    exact (C [(txt "headers", VObject [(txt "X-Trace", VString (txt "1"))]);
              (txt "proxy", VObject [(txt "host", VString (txt "10.0.0.2"))])]
             (txt "headers") eq_refl eq_refl (or_intror (conj N1 N2))).
  - apply B. intros custom E. injection E as <-. reflexivity.
Defined.



(** ** The buffer shared by reference *)

(** X18: [getContext] returns the buffer's own array.  An array obtained
    from it shows a later [addToContext]; after [clearContext] the client
    points to a new array, the one obtained before keeps its entries, and
    later additions go to the new array only. *)
Theorem snapshot_follows_until_clear
        (h : Shared.store) (this : Shared.OpenAIClient) (e : value) :
  Shared.context this < List.length h ->
  valid_entry e = true ->
  let snapshot := fst (Shared.getContext (h, this)) in
  let added := snd (Shared.addToContext e (h, this)) in
  let cleared := Shared.clearContext (h, this) in
  let readded := snd (Shared.addToContext e cleared) in
  Shared.deref (fst added) snapshot = Shared.deref h snapshot ++ [e]
  /\ fst (Shared.getContext added) = snapshot
  /\ Shared.deref (fst readded) snapshot = Shared.deref h snapshot
  /\ Shared.deref (fst readded) (fst (Shared.getContext readded)) = [e]
  /\ fst (Shared.getContext readded) <> snapshot.
Proof.
  intros L V. cbv zeta.
  unfold Shared.getContext, Shared.addToContext, Shared.clearContext,
    Shared.in_place. cbn [fst snd Shared.context].
  rewrite !(addToContext_valid e _ V). cbn [fst snd Client.context Shared.context].
  split; [apply deref_update_same, L|]. split; [reflexivity|].
  rewrite deref_alloc_new. cbn [app].
  split; [|split].
  - rewrite deref_update_other by lia. apply deref_alloc_old, L.
  - apply deref_update_same. rewrite length_app. cbn. lia.
  - lia.
Qed.

Lemma snapshot_follows_until_clear_witness :
  let s0 := Shared.new_client [] in
  let s1 := snd (Shared.addToContext (entry "user" "Hello") s0) in
  let snapshot := fst (Shared.getContext s1) in
  let s2 := snd (Shared.addToContext (entry "assistant" "Hi there!") s1) in
  let s3 := snd (Shared.addToContext (entry "assistant" "Hi there!")
                                     (Shared.clearContext s1)) in
  Shared.deref (fst s2) snapshot
  = [entry "user" "Hello"; entry "assistant" "Hi there!"]
  /\ Shared.deref (fst s3) snapshot = [entry "user" "Hello"]
  /\ Shared.deref (fst s3) (fst (Shared.getContext s3))
     = [entry "assistant" "Hi there!"].
Proof.
  cbv zeta.
  assert (L : 0 < 1) by lia.
  pose proof (snapshot_follows_until_clear
                [[entry "user" "Hello"]] {| Shared.context := 0 |}
                (entry "assistant" "Hi there!") L eq_refl)
    as (A & _ & B & C & _).
  split; [exact A|]. split; [exact B | exact C].
Defined.

(** X19: the array that [getContext] returns is the buffer itself, so a
    caller that pushes onto it changes the buffer without the check of
    [addToContext]: any value, valid entry or not, is then in the buffer
    and is posted with the next chat completion. *)
Theorem caller_push_bypasses_validation
        (h : Shared.store) (this : Shared.OpenAIClient) (x : value)
        (options : Client.CreateChatCompletionOptions) :
  Shared.context this < List.length h ->
  let snapshot := fst (Shared.getContext (h, this)) in
  let pushed := Shared.caller_push snapshot x (h, this) in
  Shared.deref (fst pushed) (fst (Shared.getContext pushed))
  = Shared.deref h snapshot ++ [x]
  /\ exists post,
      fst (Shared.createChatCompletion options pushed) = Client.Returned post
      /\ Client.messages (Client.payload post)
         = Shared.deref h snapshot ++ [x] ++ Client.messages options.
Proof.
  intros L. cbv zeta.
  unfold Shared.getContext, Shared.caller_push, Shared.createChatCompletion,
    Shared.in_place. cbn [fst snd].
  rewrite (deref_update_same h _ _ L).
  split; [reflexivity|].
  eexists. split; [reflexivity|]. cbn. rewrite <- app_assoc. reflexivity.
Qed.

Lemma caller_push_bypasses_validation_witness :
  let s1 := snd (Shared.addToContext (entry "user" "Hello") (Shared.new_client [])) in
  let pushed := Shared.caller_push (fst (Shared.getContext s1))
                                   (entry "invalid" "not checked") s1 in
  valid_entry (entry "invalid" "not checked") = false
  /\ Shared.deref (fst pushed) (fst (Shared.getContext pushed))
     = [entry "user" "Hello"; entry "invalid" "not checked"].
Proof.
  cbv zeta. split; [reflexivity|].
  assert (L : 0 < 1) by lia.
  exact (proj1 (caller_push_bypasses_validation
                  [[entry "user" "Hello"]] {| Shared.context := 0 |}
                  (entry "invalid" "not checked")
                  {| Client.messages := []; Client.stream := false;
                     Client.others := [] |} L)).
Defined.
